(** * fix_binary_returns.py: the return-to-goto rewriter

    A shallow embedding of [fix_binary_returns.py], the script that turns the
    [return val_X(...);] statements of one region of a C file into
    [binary_result = val_X(...); goto binary_cleanup;].

    A Python [str] is modelled by [string]; each [ascii] stands for the code
    point of one character below 256 (the C file the script rewrites is
    ASCII).  The two regular expressions of the script are kept as values of
    a small regex syntax and run by a backtracking matcher with greedy
    quantifiers and numbered groups, the way [re.match] runs them. *)

From Stdlib Require Import String Ascii List Arith Bool Lia NArith.
Import ListNotations.

Local Open Scope string_scope.
Local Open Scope list_scope.
Local Open Scope nat_scope.

(** ** Text primitives *)

(** The one-character string a Python literal writes as a backslash followed
    by the letter n. *)
Definition nl : string := String "010"%char EmptyString.

Definition code (c : ascii) : nat := nat_of_ascii c.

Definition between (lo hi n : nat) : bool := (lo <=? n) && (n <=? hi).

(** [\s] of a [str] pattern: the ASCII white space 9..13, 28..32 and, below
    256, the characters 0x85 and 0xA0. *)
Definition is_space (c : ascii) : bool :=
  let n := code c in
  between 9 13 n || between 28 32 n || (n =? 133) || (n =? 160).

(** [\w] of a [str] pattern: the underscore and every character that
    [str.isalnum] accepts; below 256 these are the ASCII letters and digits
    and the Latin-1 letters, superscript digits and fractions. *)
Definition is_word (c : ascii) : bool :=
  let n := code c in
  between 48 57 n || between 65 90 n || (n =? 95) || between 97 122 n ||
  (n =? 170) || between 178 179 n || (n =? 181) || between 185 186 n ||
  between 188 190 n || between 192 214 n || between 216 246 n ||
  between 248 255 n.

(** The class [[^)]]. *)
Definition not_rparen (c : ascii) : bool := negb (Ascii.eqb c ")").

Fixpoint all (p : ascii -> bool) (s : string) : bool :=
  match s with
  | EmptyString => true
  | String c s' => p c && all p s'
  end.

(** [starts_with p s]: [s] begins with [p]. *)
Fixpoint starts_with (p s : string) : bool :=
  match p, s with
  | EmptyString, _ => true
  | String a p', String b s' => Ascii.eqb a b && starts_with p' s'
  | String _ _, EmptyString => false
  end.

(** [drop n s]: [s[n:]]. *)
Fixpoint drop (n : nat) (s : string) : string :=
  match n, s with
  | O, _ => s
  | S n', String _ s' => drop n' s'
  | S _, EmptyString => EmptyString
  end.

(** [take n s]: [s[:n]]. *)
Fixpoint take (n : nat) (s : string) : string :=
  match n, s with
  | O, _ => EmptyString
  | S n', String c s' => String c (take n' s')
  | S _, EmptyString => EmptyString
  end.

(** Python's [needle in hay] on strings. *)
Fixpoint contains (needle hay : string) : bool :=
  starts_with needle hay ||
  match hay with
  | EmptyString => false
  | String _ hay' => contains needle hay'
  end.

(** ** Regular expressions, as [re.match] runs them *)

Module Re.

(** The constructs the script's two patterns use: literal text, a greedy
    [*] or [+] on a character class, sequence, a greedy optional
    non-capturing group, and a numbered capturing group. *)
Inductive re : Type :=
| Str (lit : string)
| Star (p : ascii -> bool)
| Plus (p : ascii -> bool)
| Seq (r1 r2 : re)
| Opt (r : re)
| Grp (n : nat) (r : re).

(** What a match object remembers: the text of each group that took part. *)
Definition groups : Type := nat -> option string.

Definition no_groups : groups := fun _ => None.

Definition set_group (n : nat) (s : string) (g : groups) : groups :=
  fun m => if m =? n then Some s else g m.

(** The first alternative that succeeds wins. *)
Definition or_else {A : Type} (x y : option A) : option A :=
  match x with
  | Some _ => x
  | None => y
  end.

(** Greedy repetition of a class: take one more character when possible and
    come back to the shorter repetition only when the rest of the pattern
    fails after the longer one. *)
Fixpoint star {A : Type} (p : ascii -> bool) (s : string)
    (k : string -> option A) : option A :=
  match s with
  | String c s' => if p c then or_else (star p s' k) (k s) else k s
  | EmptyString => k s
  end.

Definition plus {A : Type} (p : ascii -> bool) (s : string)
    (k : string -> option A) : option A :=
  match s with
  | String c s' => if p c then star p s' k else None
  | EmptyString => None
  end.

(** [run r s g k]: match [r] at the front of [s] with the groups [g] set so
    far, and continue with [k] on what is left. *)
Fixpoint run (r : re) (s : string) (g : groups)
    (k : string -> groups -> option groups) : option groups :=
  match r with
  | Str lit => if starts_with lit s then k (drop (String.length lit) s) g else None
  | Star p => star p s (fun s' => k s' g)
  | Plus p => plus p s (fun s' => k s' g)
  | Seq r1 r2 => run r1 s g (fun s' g' => run r2 s' g' k)
  | Opt r1 => or_else (run r1 s g k) (k s g)
  | Grp n r1 =>
      run r1 s g
        (fun s' g' => k s' (set_group n (take (String.length s - String.length s') s) g'))
  end.

(** [re.match(pattern, s)]: anchored at the start of [s], free at its end. *)
Definition re_match (r : re) (s : string) : option groups :=
  run r s no_groups (fun _ g => Some g).

(** [m.group(n)], as an f-string prints it. *)
Definition group (m : groups) (n : nat) : string :=
  match m n with
  | Some s => s
  | None => "None"
  end.

End Re.

Import Re.

Declare Scope re_scope.
Delimit Scope re_scope with re.
Notation "r1 ;; r2" := (Seq r1 r2) (at level 61, right associativity) : re_scope.

(** ** The script *)

(** The pattern of the first [re.match], token by token (the blanks between
    the tokens are not in the pattern; the one blank it has, after [case],
    is written <blank>):
    [( \s* ) (?: case<blank> \w+ : \s* )? return \s+ ( val_ \w+ \( [^)]+ \) ) ;] *)
Definition return_re : re :=
  (Grp 1 (Star is_space) ;;
   Opt (Str "case " ;; Plus is_word ;; Str ":" ;; Star is_space) ;;
   Str "return" ;; Plus is_space ;;
   Grp 2 (Str "val_" ;; Plus is_word ;; Str "(" ;; Plus not_rparen ;; Str ")") ;;
   Str ";")%re.

(** The pattern of the second [re.match], token by token:
    [( \s* ) ( case<blank> \w+ ) : \s* return] *)
Definition case_re : re :=
  (Grp 1 (Star is_space) ;;
   Grp 2 (Str "case " ;; Plus is_word) ;;
   Str ":" ;; Star is_space ;; Str "return")%re.

(** The body of [if match:]: the lines appended in place of [line], or [None]
    on the branch that appends [line] itself. *)
Definition replacement (line : string) : option (list string) :=
  match re_match return_re line with
  | Some match_ =>
      let indent := group match_ 1 in
      if contains "case " line then
        match re_match case_re line with
        | Some case_match =>
            Some [ group case_match 1 ++ group case_match 2 ++ ":" ++ nl;
                   indent ++ "    binary_result = " ++ group match_ 2 ++ ";" ++ nl;
                   indent ++ "    goto binary_cleanup;" ++ nl ]%string
        | None => None
        end
      else
        Some [ indent ++ "binary_result = " ++ group match_ 2 ++ ";" ++ nl;
               indent ++ "goto binary_cleanup;" ++ nl ]%string
  | None => None
  end.

(** What one iteration appends to [result_lines], after the window flag has
    been updated. *)
Definition process_line (in_target_range : bool) (line : string) : list string :=
  if in_target_range && contains "return val_" line then
    match replacement line with
    | Some new_lines => new_lines
    | None => [line]
    end
  else [line].

(** The two [if]s that open and close the window at iteration [i]. *)
Definition update_range (i : nat) (in_target_range : bool) : bool :=
  let in_target_range := if i =? 175 then true else in_target_range in
  if 605 <=? i then false else in_target_range.

(** The [for] loop, from iteration [i] on. *)
Fixpoint loop (i : nat) (in_target_range : bool) (lines result_lines : list string)
    : list string :=
  match lines with
  | [] => result_lines
  | line :: lines' =>
      let in_target_range := update_range i in_target_range in
      loop (S i) in_target_range lines'
        (result_lines ++ process_line in_target_range line)
  end.

(** From [readlines] to [writelines]: [enumerate(lines, 1)], the flag reset,
    an empty [result_lines]. *)
Definition transform (lines : list string) : list string :=
  loop 1 false lines [].

(** The value of [in_target_range] after the two [if]s of iteration [i]
    (before the first iteration it is [False]). *)
Fixpoint range_flag (i : nat) : bool :=
  match i with
  | O => false
  | S j => update_range i (range_flag j)
  end.

(** ** The script around the loop: read, transform, write, print *)

Module IO.

(** The exceptions [open], [readlines] and [writelines] raise. *)
Inductive error : Type :=
| FileNotFoundError
| PermissionError
| UnicodeDecodeError
| OSError.

(** A file: who may open it, and its characters as they are stored, line
    ends included ([None] when its bytes are not text in the default
    encoding). *)
Record file : Type := mkFile {
  can_read : bool;
  can_write : bool;
  text : option string
}.

(** What the script can observe and change: the files by path and the
    lines printed so far; and what it depends on: the line separator of the
    platform ([os.linesep]) and how many characters the device still takes
    for the file being written ([None]: as many as are written). *)
Record world : Type := mkWorld {
  disk : list (string * file);
  console : list string;
  linesep : string;
  capacity : option nat
}.

(** A statement either raises, or returns a value; both leave a world. *)
Definition io (A : Type) : Type := world -> (error + A) * world.

Definition ret {A : Type} (a : A) : io A := fun w => (inr a, w).

(** Sequencing: nothing runs after an exception, since the script has no
    [try]. *)
Definition bind {A B : Type} (m : io A) (f : A -> io B) : io B :=
  fun w =>
    match m w with
    | (inl e, w') => (inl e, w')
    | (inr a, w') => f a w'
    end.

Fixpoint find (path : string) (d : list (string * file)) : option file :=
  match d with
  | [] => None
  | (p, f) :: d' => if String.eqb p path then Some f else find path d'
  end.

Fixpoint store (path : string) (f : file) (d : list (string * file))
    : list (string * file) :=
  match d with
  | [] => [(path, f)]
  | (p, f') :: d' =>
      if String.eqb p path then (p, f) :: d' else (p, f') :: store path f d'
  end.

(** Reading in text mode with the default [newline=None]: a carriage return
    followed by a line feed, and a carriage return alone, both become one
    line feed. *)
Fixpoint universal_newlines (s : string) : string :=
  match s with
  | EmptyString => EmptyString
  | String c s' =>
      if Ascii.eqb c "013" then
        String "010"
          match s' with
          | String c' s'' =>
              if Ascii.eqb c' "010" then universal_newlines s''
              else universal_newlines s'
          | EmptyString => EmptyString
          end
      else String c (universal_newlines s')
  end.

(** Writing in text mode with the default [newline=None]: every line feed
    becomes the line separator of the platform. *)
Fixpoint to_linesep (sep s : string) : string :=
  match s with
  | EmptyString => EmptyString
  | String c s' =>
      if Ascii.eqb c "010" then (sep ++ to_linesep sep s')%string
      else String c (to_linesep sep s')
  end.

(** How [readlines] cuts the translated text: after every line feed, and
    nowhere else. *)
Fixpoint split_lines (s : string) : list string :=
  match s with
  | EmptyString => []
  | String c s' =>
      if Ascii.eqb c "010" then String c EmptyString :: split_lines s'
      else match split_lines s' with
           | [] => [String c EmptyString]
           | l :: ls => String c l :: ls
           end
  end.

(** [with open(path, 'r') as f: lines = f.readlines()] *)
Definition read_lines (path : string) : io (list string) :=
  fun w =>
    match find path (disk w) with
    | None => (inl FileNotFoundError, w)
    | Some f =>
        if can_read f then
          match text f with
          | Some s => (inr (split_lines (universal_newlines s)), w)
          | None => (inl UnicodeDecodeError, w)
          end
        else (inl PermissionError, w)
    end.

(** What is on the device once [open(path, 'w')] has emptied the file and
    the characters [s] have been written to it: all of them, or, when the
    device takes fewer, the ones it took, and [OSError]. *)
Definition write_text (path : string) (f : file) (s : string) : io unit :=
  fun w =>
    match capacity w with
    | Some n =>
        if String.length s <=? n then
          (inr tt, mkWorld (store path (mkFile (can_read f) true (Some s)) (disk w))
                     (console w) (linesep w) (capacity w))
        else
          (inl OSError,
           mkWorld (store path (mkFile (can_read f) true (Some (take n s))) (disk w))
             (console w) (linesep w) (capacity w))
    | None =>
        (inr tt, mkWorld (store path (mkFile (can_read f) true (Some s)) (disk w))
                   (console w) (linesep w) (capacity w))
    end.

(** [with open(path, 'w') as f: f.writelines(result_lines)]: the file is
    created when it is missing; opening fails, and nothing changes, when it
    may not be written. *)
Definition write_lines (path : string) (result_lines : list string) : io unit :=
  fun w =>
    let s := to_linesep (linesep w) (String.concat "" result_lines) in
    match find path (disk w) with
    | None => write_text path (mkFile true true None) s w
    | Some f =>
        if can_write f then write_text path f s w
        else (inl PermissionError, w)
    end.

Definition print (s : string) : io unit :=
  fun w => (inr tt, mkWorld (disk w) (console w ++ [s]) (linesep w) (capacity w)).

Definition path : string := "src/interpreter/runtime/expressions.c".

(** The whole script. *)
Definition main : io unit :=
  bind (read_lines path) (fun lines =>
  let result_lines := transform lines in
  bind (write_lines path result_lines) (fun _ =>
  print "Replaced return statements with goto binary_cleanup")).

End IO.

(** ** Notions used to state the properties *)

(** [k] fails on every text that starts with a character of the class [p]. *)
Definition rejects {A : Type} (p : ascii -> bool) (k : string -> option A) : Prop :=
  forall c t, p c = true -> k (String c t) = None.

(** [s] does not start with a character of the class [p]. *)
Definition stops (p : ascii -> bool) (s : string) : bool :=
  match s with
  | String c _ => negb (p c)
  | EmptyString => true
  end.

(** What a successful run of a pattern says about the text: [den r s g s' g']
    when [r] can take the front of [s] and leave [s'], turning the groups
    [g] into [g']. *)
Fixpoint den (r : re) (s : string) (g : groups) (s' : string) (g' : groups) : Prop :=
  match r with
  | Str lit => s = (lit ++ s')%string /\ g' = g
  | Star p => exists a, s = (a ++ s')%string /\ all p a = true /\ g' = g
  | Plus p =>
      exists a, s = (a ++ s')%string /\ a <> "" /\ all p a = true /\ g' = g
  | Seq r1 r2 => exists s1 g1, den r1 s g s1 g1 /\ den r2 s1 g1 s' g'
  | Opt r1 => den r1 s g s' g' \/ (s' = s /\ g' = g)
  | Grp n r1 =>
      exists g1, den r1 s g s' g1 /\
        g' = set_group n (take (String.length s - String.length s') s) g1
  end.

(** The lines numbered from 175 up to, and not including, 605. *)
Definition window (i : nat) : bool := (175 <=? i) && (i <? 605).

(** The pieces of the first pattern: the call, the [return] statement and
    the optional label. *)
Definition call_re : re :=
  (Str "val_" ;; Plus is_word ;; Str "(" ;; Plus not_rparen ;; Str ")")%re.

Definition ret_re : re :=
  (Str "return" ;; Plus is_space ;; Grp 2 call_re ;; Str ";")%re.

Definition label_re : re :=
  (Str "case " ;; Plus is_word ;; Str ":" ;; Star is_space)%re.

(** The texts the pieces match. *)
Definition call_text (name args : string) : string :=
  ("val_" ++ name ++ "(" ++ args ++ ")")%string.

Definition ret_text (ws name args : string) : string :=
  ("return" ++ ws ++ call_text name args)%string.

Definition label_text (label ws : string) : string :=
  ("case " ++ label ++ ":" ++ ws)%string.

(** The two shapes of line the script is written for. *)
Definition bare_return (indent ws name args rest : string) : string :=
  (indent ++ ret_text ws name args ++ ";" ++ rest)%string.

Definition case_return (indent label ws1 ws name args rest : string) : string :=
  (indent ++ label_text label ws1 ++ ret_text ws name args ++ ";" ++ rest)%string.

(** The lines expected in their place. *)
Definition bare_lines (indent expr : string) : list string :=
  [ indent ++ "binary_result = " ++ expr ++ ";" ++ nl;
    indent ++ "goto binary_cleanup;" ++ nl ]%string.

Definition case_lines (indent label expr : string) : list string :=
  [ indent ++ "case " ++ label ++ ":" ++ nl;
    indent ++ "    binary_result = " ++ expr ++ ";" ++ nl;
    indent ++ "    goto binary_cleanup;" ++ nl ]%string.

Definition nonempty (s : string) : bool :=
  match s with
  | EmptyString => false
  | String _ _ => true
  end.

(** White space, possibly none. *)
Definition blank (s : string) : bool := all is_space s.

(** At least one character, all of the class [p]. *)
Definition some_of (p : ascii -> bool) (s : string) : bool :=
  nonempty s && all p s.

(** The message the script prints. *)
Definition done_message : string :=
  "Replaced return statements with goto binary_cleanup".

(** The characters a run writes to a file that held [s], on a platform
    whose line separator is [sep]. *)
Definition new_text (sep s : string) : string :=
  IO.to_linesep sep
    (String.concat "" (transform (IO.split_lines (IO.universal_newlines s)))).

(** No line feed in [s]. *)
Definition no_nl (s : string) : bool :=
  all (fun c => negb (Ascii.eqb c "010")) s.

(** No carriage return in [s]. *)
Definition no_cr (s : string) : bool :=
  all (fun c => negb (Ascii.eqb c "013")) s.

(** The carriage return followed by the line feed. *)
Definition crlf : string := String "013" nl.

(** [is_line complete l]: [l] is one line of a text: it is not empty and has
    no line feed except as its last character; when [complete] is set, the
    line feed is there. *)
Fixpoint is_line (complete : bool) (l : string) : bool :=
  match l with
  | EmptyString => false
  | String c EmptyString => if Ascii.eqb c "010" then true else negb complete
  | String c l' => negb (Ascii.eqb c "010") && is_line complete l'
  end.

(** The lines of a text as [readlines] returns them: every line complete,
    except possibly the last. *)
Fixpoint lines_ok (ls : list string) : bool :=
  match ls with
  | [] => true
  | [l] => is_line false l
  | l :: ls' => is_line true l && lines_ok ls'
  end.

(** ** Strings *)

Section StringFacts.

Lemma append_nil_r (s : string) : (s ++ "")%string = s.
Proof. induction s as [|c s IH]; simpl; [reflexivity | now rewrite IH]. Qed.

Lemma append_assoc (a b c : string) :
  ((a ++ b) ++ c)%string = (a ++ (b ++ c))%string.
Proof. induction a as [|x a IH]; simpl; [reflexivity | now rewrite IH]. Qed.

Lemma length_append (a b : string) :
  String.length (a ++ b) = String.length a + String.length b.
Proof. induction a as [|x a IH]; simpl; [reflexivity | now rewrite IH]. Qed.

Lemma all_append (p : ascii -> bool) (a b : string) :
  all p (a ++ b) = all p a && all p b.
Proof.
  induction a as [|x a IH]; simpl; [reflexivity|].
  now rewrite IH, andb_assoc.
Qed.

Lemma starts_with_append (lit s : string) : starts_with lit (lit ++ s) = true.
Proof.
  induction lit as [|x lit IH]; simpl; [reflexivity|].
  now rewrite Ascii.eqb_refl, IH.
Qed.

Lemma drop_append (lit s : string) : drop (String.length lit) (lit ++ s) = s.
Proof. induction lit as [|x lit IH]; simpl; [reflexivity | exact IH]. Qed.

Lemma starts_with_split (lit s : string) :
  starts_with lit s = true -> s = (lit ++ drop (String.length lit) s)%string.
Proof.
  revert s; induction lit as [|x lit IH]; intros s H; simpl in *; [reflexivity|].
  destruct s as [|y s]; [discriminate|].
  apply andb_true_iff in H as [Hxy Hrest].
  apply Ascii.eqb_eq in Hxy; subst y.
  simpl. now rewrite <- IH.
Qed.

Lemma take_append (a b : string) :
  take (String.length (a ++ b) - String.length b) (a ++ b) = a.
Proof.
  rewrite length_append.
  replace (String.length a + String.length b - String.length b)
    with (String.length a) by lia.
  induction a as [|x a IH]; simpl; [now destruct b | now rewrite IH].
Qed.

Lemma take_append2 (a b c : string) :
  take (String.length (a ++ b ++ c) - String.length c) (a ++ b ++ c) =
  (a ++ b)%string.
Proof. rewrite <- append_assoc. apply take_append. Qed.

Lemma starts_with_head (a c : ascii) (l t : string) :
  Ascii.eqb a c = false -> starts_with (String a l) (String c t) = false.
Proof. intros H; simpl; now rewrite H. Qed.

End StringFacts.

(** Which characters the classes keep apart from the literals that follow
    them in the two patterns. *)
Section ClassFacts.

Ltac by_cases c :=
  destruct c as [[] [] [] [] [] [] [] []]; vm_compute; congruence.

Lemma space_not_c c : is_space c = true -> Ascii.eqb "c" c = false.
Proof. by_cases c. Qed.

Lemma space_not_r c : is_space c = true -> Ascii.eqb "r" c = false.
Proof. by_cases c. Qed.

Lemma space_not_v c : is_space c = true -> Ascii.eqb "v" c = false.
Proof. by_cases c. Qed.

Lemma word_not_colon c : is_word c = true -> Ascii.eqb ":" c = false.
Proof. by_cases c. Qed.

Lemma word_not_lparen c : is_word c = true -> Ascii.eqb "(" c = false.
Proof. by_cases c. Qed.

Lemma not_rparen_spec c : not_rparen c = true -> Ascii.eqb ")" c = false.
Proof. by_cases c. Qed.

End ClassFacts.

(** ** The matcher *)

Section MatcherFacts.

Context {A : Type}.

Lemma star_stop p s (k : string -> option A) :
  stops p s = true -> star p s k = k s.
Proof.
  destruct s as [|c s]; simpl; [reflexivity|].
  intros H; apply negb_true_iff in H; now rewrite H.
Qed.

(** A greedy repetition followed by something that cannot start inside the
    class takes the whole run of the class: giving characters back never
    helps. *)
Lemma star_skip p a b (k : string -> option A) :
  rejects p k -> all p a = true -> star p (a ++ b) k = star p b k.
Proof.
  intros Hk; induction a as [|c a IH]; simpl; [reflexivity|].
  intros H; apply andb_true_iff in H as [Hc Ha].
  rewrite Hc, (IH Ha), (Hk c _ Hc).
  now destruct (star p b k).
Qed.

Lemma star_run p a b (k : string -> option A) :
  rejects p k -> all p a = true -> stops p b = true ->
  star p (a ++ b) k = k b.
Proof. intros Hk Ha Hb; now rewrite star_skip, star_stop. Qed.

Lemma plus_run p a b (k : string -> option A) :
  rejects p k -> a <> "" -> all p a = true -> stops p b = true ->
  plus p (a ++ b) k = k b.
Proof.
  intros Hk Hne Ha Hb; destruct a as [|c a]; [congruence|].
  simpl in *; apply andb_true_iff in Ha as [Hc Ha].
  rewrite Hc; now apply star_run.
Qed.

Lemma star_inv p s (k : string -> option A) r :
  star p s k = Some r ->
  exists a b, s = (a ++ b)%string /\ all p a = true /\ k b = Some r.
Proof.
  induction s as [|c s IH]; simpl; intros H.
  - now exists "", "".
  - destruct (p c) eqn:Hc; [|now exists "", (String c s)].
    destruct (star p s k) as [r'|] eqn:Hs; simpl in H.
    + destruct (IH H) as (a & b & -> & Ha & Hb).
      exists (String c a), b; simpl; now rewrite Hc, Ha.
    + now exists "", (String c s).
Qed.

Lemma plus_inv p s (k : string -> option A) r :
  plus p s k = Some r ->
  exists a b, s = (a ++ b)%string /\ a <> "" /\ all p a = true /\ k b = Some r.
Proof.
  destruct s as [|c s]; simpl; [discriminate|].
  destruct (p c) eqn:Hc; [|discriminate].
  intros H; destruct (star_inv _ _ _ _ H) as (a & b & -> & Ha & Hb).
  exists (String c a), b; simpl; rewrite Hc, Ha; repeat split; congruence.
Qed.

End MatcherFacts.

Section RunFacts.

Lemma run_inv r : forall s g k res,
  run r s g k = Some res ->
  exists s' g', den r s g s' g' /\ k s' g' = Some res.
Proof.
  induction r as [lit|p|p|r1 IH1 r2 IH2|r1 IH1|n r1 IH1]; intros s g k res H;
    cbn [run den] in *.
  - destruct (starts_with lit s) eqn:Hs; [|discriminate].
    exists (drop (String.length lit) s), g; repeat split; trivial.
    now apply starts_with_split.
  - destruct (star_inv _ _ _ _ H) as (a & b & -> & Ha & Hb).
    exists b, g; split; trivial. now exists a.
  - destruct (plus_inv _ _ _ _ H) as (a & b & -> & Hne & Ha & Hb).
    exists b, g; split; trivial. now exists a.
  - destruct (IH1 _ _ _ _ H) as (s1 & g1 & D1 & H1).
    destruct (IH2 _ _ _ _ H1) as (s2 & g2 & D2 & H2).
    exists s2, g2; split; trivial. now exists s1, g1.
  - destruct (run r1 s g k) as [x|] eqn:Hr; cbn [or_else] in H.
    + destruct (IH1 _ _ _ _ Hr) as (s1 & g1 & D1 & H1).
      exists s1, g1; split; [now left | congruence].
    + exists s, g; split; [now right | trivial].
  - destruct (IH1 _ _ _ _ H) as (s1 & g1 & D1 & H1).
    eexists s1, _; split; [|exact H1]. now exists g1.
Qed.

End RunFacts.

(** ** The two patterns on the texts they are written for *)

Section Patterns.

Lemma return_re_parts :
  return_re = (Grp 1 (Star is_space) ;; Opt label_re ;; ret_re)%re.
Proof. reflexivity. Qed.

Lemma some_of_inv p s : some_of p s = true -> s <> "" /\ all p s = true.
Proof.
  unfold some_of; intros H; apply andb_true_iff in H as [Hn Ha].
  split; [now destruct s | exact Ha].
Qed.

Lemma some_of_intro p s : s <> "" -> all p s = true -> some_of p s = true.
Proof. intros Hn Ha; unfold some_of; rewrite Ha; now destruct s. Qed.

Lemma run_str lit s g k : run (Str lit) (lit ++ s) g k = k s g.
Proof. cbn [run]; now rewrite starts_with_append, drop_append. Qed.

Lemma run_str_head a l c t g k :
  Ascii.eqb a c = false -> run (Str (String a l)) (String c t) g k = None.
Proof. intros H; cbn [run]; now rewrite starts_with_head. Qed.

Lemma run_star p a b g k :
  rejects p (fun s => k s g) -> all p a = true -> stops p b = true ->
  run (Star p) (a ++ b) g k = k b g.
Proof. intros; cbn [run]; now rewrite star_run. Qed.

Lemma run_plus p a b g k :
  rejects p (fun s => k s g) -> some_of p a = true -> stops p b = true ->
  run (Plus p) (a ++ b) g k = k b g.
Proof.
  intros Hk Ha Hb; apply some_of_inv in Ha as [Hn Ha].
  cbn [run]; now rewrite plus_run.
Qed.

Lemma run_seq r1 r2 s g k :
  run (r1 ;; r2)%re s g k = run r1 s g (fun s' g' => run r2 s' g' k).
Proof. reflexivity. Qed.

Lemma run_grp n r s g k :
  run (Grp n r) s g k =
  run r s g
    (fun s' g' => k s' (set_group n (take (String.length s - String.length s') s) g')).
Proof. reflexivity. Qed.

Lemma rejects_str p a l g k :
  (forall c, p c = true -> Ascii.eqb a c = false) ->
  rejects p (fun s => run (Str (String a l)) s g k).
Proof. intros H c t Hc; apply run_str_head; auto. Qed.

Lemma rejects_seq_str p a l r g k :
  (forall c, p c = true -> Ascii.eqb a c = false) ->
  rejects p (fun s => run (Str (String a l) ;; r)%re s g k).
Proof. intros H c t Hc; rewrite run_seq; apply run_str_head; auto. Qed.

(** Side conditions of the rewriting steps below. *)
Ltac side :=
  solve [ trivial
        | apply rejects_str;
          auto using space_not_c, space_not_r, space_not_v, word_not_colon,
            word_not_lparen, not_rparen_spec
        | apply rejects_seq_str;
          auto using space_not_c, space_not_r, space_not_v, word_not_colon,
            word_not_lparen, not_rparen_spec ].

(** The call: the name runs up to the parenthesis, the arguments up to the
    first closing parenthesis. *)
Lemma run_call name args rest g k :
  some_of is_word name = true -> some_of not_rparen args = true ->
  run call_re (call_text name args ++ rest) g k = k rest g.
Proof.
  intros Hname Hargs; unfold call_re, call_text.
  rewrite !append_assoc.
  rewrite run_seq, run_str, run_seq, run_plus by side.
  rewrite run_seq, run_str, run_seq, run_plus by side.
  apply run_str.
Qed.

(** The statement: it matches exactly when a semicolon follows the first
    closing parenthesis, and group 2 is then the call. *)
Lemma run_ret ws name args rest g k :
  some_of is_space ws = true ->
  some_of is_word name = true -> some_of not_rparen args = true ->
  run ret_re (ret_text ws name args ++ rest) g k =
  if starts_with ";" rest
  then k (drop 1 rest) (set_group 2 (call_text name args) g)
  else None.
Proof.
  intros Hws Hname Hargs; unfold ret_re, ret_text.
  rewrite !append_assoc.
  rewrite run_seq, run_str, run_seq, run_plus; trivial.
  - rewrite run_seq. cbn [run]. fold call_re.
    rewrite run_call, take_append; trivial.
  - intros c t Hc. rewrite run_seq. cbn [run]. unfold call_re.
    rewrite run_seq. apply run_str_head. now apply space_not_v.
Qed.

Lemma run_ret_head c t g k :
  Ascii.eqb "r" c = false -> run ret_re (String c t) g k = None.
Proof. intros H; unfold ret_re; rewrite run_seq; now apply run_str_head. Qed.

Lemma run_label_head c t g k :
  Ascii.eqb "c" c = false -> run label_re (String c t) g k = None.
Proof. intros H; unfold label_re; rewrite run_seq; now apply run_str_head. Qed.

(** The label, when the rest of the pattern cannot start with white space. *)
Lemma run_label label ws rest g k :
  rejects is_space (fun s => k s g) ->
  some_of is_word label = true -> blank ws = true ->
  stops is_space rest = true ->
  run label_re (label_text label ws ++ rest) g k = k rest g.
Proof.
  intros Hk Hlabel Hws Hrest; unfold label_re, label_text.
  rewrite !append_assoc.
  rewrite run_seq, run_str, run_seq, run_plus by side.
  rewrite run_seq, run_str. now apply run_star.
Qed.

(** What the first [re.match] returns on a bare [return]. *)
Lemma match_return_bare indent ws name args rest :
  blank indent = true -> some_of is_space ws = true ->
  some_of is_word name = true -> some_of not_rparen args = true ->
  re_match return_re (indent ++ ret_text ws name args ++ rest) =
  if starts_with ";" rest
  then Some (set_group 2 (call_text name args) (set_group 1 indent no_groups))
  else None.
Proof.
  intros Hind Hws Hname Hargs.
  unfold re_match; rewrite return_re_parts, run_seq.
  cbn [run]. rewrite star_run; trivial.
  - rewrite take_append. cbn [or_else].
    replace (run label_re _ _ _) with (@None groups).
    + cbn [or_else]. now apply run_ret.
    + symmetry. apply run_label_head. reflexivity.
  - intros c t Hc.
    rewrite run_label_head by now apply space_not_c.
    rewrite run_ret_head by now apply space_not_r.
    reflexivity.
Qed.

(** What the first [re.match] returns on a labelled [return]. *)
Lemma match_return_case indent label ws1 ws name args rest :
  blank indent = true -> some_of is_word label = true -> blank ws1 = true ->
  some_of is_space ws = true ->
  some_of is_word name = true -> some_of not_rparen args = true ->
  re_match return_re
    (indent ++ label_text label ws1 ++ ret_text ws name args ++ rest) =
  if starts_with ";" rest
  then Some (set_group 2 (call_text name args) (set_group 1 indent no_groups))
  else None.
Proof.
  intros Hind Hlabel Hws1 Hws Hname Hargs.
  unfold re_match; rewrite return_re_parts, run_seq.
  cbn [run]. rewrite star_run; trivial.
  - rewrite take_append.
    rewrite run_label; trivial.
    + rewrite run_ret; trivial.
      match goal with
      | |- context [run ret_re (label_text ?l ?w ++ ?r) ?g ?k] =>
          replace (run ret_re (label_text l w ++ r) g k) with (@None groups)
      end.
      * now destruct (starts_with ";" rest).
      * symmetry. apply run_ret_head. reflexivity.
    + intros c t Hc. apply run_ret_head. now apply space_not_r.
  - intros c t Hc.
    rewrite run_label_head by now apply space_not_c.
    rewrite run_ret_head by now apply space_not_r.
    reflexivity.
Qed.

(** The first [re.match] fails when the first character after the
    indentation opens neither [case] nor [return]. *)
Lemma match_return_other indent c t :
  blank indent = true -> is_space c = false ->
  Ascii.eqb "c" c = false -> Ascii.eqb "r" c = false ->
  re_match return_re (indent ++ String c t) = None.
Proof.
  intros Hind Hsp Hc Hr.
  unfold re_match; rewrite return_re_parts, run_seq.
  cbn [run]. rewrite star_run; trivial.
  - now rewrite run_label_head, run_ret_head.
  - intros c' t' Hc'.
    rewrite run_label_head by now apply space_not_c.
    rewrite run_ret_head by now apply space_not_r.
    reflexivity.
  - simpl. now rewrite Hsp.
Qed.

(** It also fails on a label with nothing but a line end behind it. *)
Lemma match_return_label_line indent label :
  blank indent = true -> some_of is_word label = true ->
  re_match return_re (indent ++ "case " ++ label ++ ":" ++ nl) = None.
Proof.
  intros Hind Hlabel.
  unfold re_match; rewrite return_re_parts, run_seq.
  cbn [run]. rewrite star_run; trivial.
  - unfold label_re at 1.
    rewrite run_seq, run_str, run_seq, run_plus by side.
    rewrite run_seq, run_str. reflexivity.
  - intros c' t' Hc'.
    rewrite run_label_head by now apply space_not_c.
    rewrite run_ret_head by now apply space_not_r.
    reflexivity.
Qed.

(** What the second [re.match] returns on a labelled [return]. *)
Lemma match_case_case indent label ws1 rest :
  blank indent = true -> some_of is_word label = true -> blank ws1 = true ->
  re_match case_re (indent ++ label_text label ws1 ++ "return" ++ rest) =
  Some (set_group 2 ("case " ++ label) (set_group 1 indent no_groups)).
Proof.
  intros Hind Hlabel Hws1.
  unfold re_match, case_re, label_text.
  rewrite !append_assoc.
  rewrite run_seq, run_grp, run_star; trivial.
  - rewrite take_append.
    rewrite run_seq, run_grp, run_seq, run_str, run_plus; trivial.
    + rewrite take_append2.
      rewrite run_seq, run_str, run_seq, run_star, run_str; side.
    + intros c t Hc. rewrite run_seq. apply run_str_head. now apply word_not_colon.
  - intros c t Hc. rewrite run_seq, run_grp, run_seq.
    apply run_str_head. now apply space_not_c.
Qed.

(** The second [re.match] fails when the first character after the
    indentation does not open [case]. *)
Lemma match_case_other indent c t :
  blank indent = true -> is_space c = false -> Ascii.eqb "c" c = false ->
  re_match case_re (indent ++ String c t) = None.
Proof.
  intros Hind Hsp Hc.
  unfold re_match, case_re.
  rewrite run_seq, run_grp, run_star; trivial.
  - rewrite run_seq, run_grp, run_seq. now apply run_str_head.
  - intros c' t' Hc'. rewrite run_seq, run_grp, run_seq.
    apply run_str_head. now apply space_not_c.
  - simpl. now rewrite Hsp.
Qed.

(** Conversely: what the pieces accept. *)
Lemma den_call s g s' g' :
  den call_re s g s' g' ->
  exists name args,
    s = (call_text name args ++ s')%string /\
    some_of is_word name = true /\ some_of not_rparen args = true /\ g' = g.
Proof.
  unfold call_re; cbn [den].
  intros (s1 & g1 & [-> ->] & s2 & g2 & (name & -> & Hn1 & Hn2 & ->) &
          s3 & g3 & [-> ->] & s4 & g4 & (args & -> & Ha1 & Ha2 & ->) & -> & ->).
  exists name, args; repeat split; auto using some_of_intro.
  unfold call_text; now rewrite !append_assoc.
Qed.

Lemma den_ret s g s' g' :
  den ret_re s g s' g' ->
  exists ws name args,
    s = (ret_text ws name args ++ ";" ++ s')%string /\
    some_of is_space ws = true /\
    some_of is_word name = true /\ some_of not_rparen args = true /\
    g' = set_group 2 (call_text name args) g.
Proof.
  unfold ret_re; cbn [den].
  intros (s1 & g1 & [-> ->] & s2 & g2 & (ws & -> & Hw1 & Hw2 & ->) &
          s3 & g3 & (g4 & D & ->) & -> & ->).
  apply den_call in D as (name & args & -> & Hn & Ha & ->).
  exists ws, name, args; repeat split; auto using some_of_intro.
  - unfold ret_text; now rewrite !append_assoc.
  - now rewrite take_append.
Qed.

Lemma den_label s g s' g' :
  den label_re s g s' g' ->
  exists label ws,
    s = (label_text label ws ++ s')%string /\
    some_of is_word label = true /\ blank ws = true /\ g' = g.
Proof.
  unfold label_re; cbn [den].
  intros (s1 & g1 & [-> ->] & s2 & g2 & (label & -> & Hl1 & Hl2 & ->) &
          s3 & g3 & [-> ->] & (ws & -> & Hw & ->)).
  exists label, ws; repeat split; auto using some_of_intro.
  unfold label_text; now rewrite !append_assoc.
Qed.

(** A line the first [re.match] accepts is a bare or a labelled [return],
    and the two groups are its indentation and its call. *)
Lemma match_return_inv line m :
  re_match return_re line = Some m ->
  exists indent pre ws name args rest,
    line = (indent ++ pre ++ ret_text ws name args ++ ";" ++ rest)%string /\
    blank indent = true /\
    (pre = "" \/
     exists label ws1, pre = label_text label ws1 /\
       some_of is_word label = true /\ blank ws1 = true) /\
    some_of is_space ws = true /\ some_of is_word name = true /\
    some_of not_rparen args = true /\
    m = set_group 2 (call_text name args) (set_group 1 indent no_groups).
Proof.
  intros H; apply run_inv in H as (s' & g' & D & E).
  injection E as <-.
  rewrite return_re_parts in D; cbn [den] in D.
  destruct D as (s1 & g1 & (g0 & (indent & -> & Hind & ->) & ->) &
                 s2 & g2 & Dl & Dr).
  rewrite take_append in Dl.
  apply den_ret in Dr as (ws & name & args & -> & Hws & Hname & Hargs & ->).
  destruct Dl as [Dl | [E1 ->]].
  - apply den_label in Dl as (label & ws1 & -> & Hlabel & Hws1 & ->).
    exists indent, (label_text label ws1), ws, name, args, s'.
    repeat split; trivial.
    right; now exists label, ws1.
  - subst s1. exists indent, "", ws, name, args, s'.
    repeat split; trivial. now left.
Qed.

(** A line the second [re.match] accepts starts with a label and [return]. *)
Lemma match_case_inv line m :
  re_match case_re line = Some m ->
  exists indent label ws1 rest,
    line = (indent ++ label_text label ws1 ++ "return" ++ rest)%string /\
    blank indent = true /\ some_of is_word label = true /\
    blank ws1 = true /\
    m = set_group 2 ("case " ++ label) (set_group 1 indent no_groups).
Proof.
  intros H; apply run_inv in H as (s' & g' & D & E).
  injection E as <-.
  unfold case_re in D; cbn [den] in D.
  destruct D as (s1 & g1 & (g0 & (indent & -> & Hind & ->) & ->) &
                 s2 & g2 &
                 (g3 & (s3 & g4 & [-> ->] & (label & -> & Hl1 & Hl2 & ->)) & ->) &
                 s4 & g5 & [-> ->] & s5 & g6 & (ws1 & -> & Hws1 & ->) & -> & ->).
  exists indent, label, ws1, s'.
  rewrite take_append, take_append2.
  unfold label_text; rewrite !append_assoc.
  repeat split; auto using some_of_intro.
Qed.

End Patterns.

(** ** The replacement of one line *)

Section Replacement.

Lemma contains_append needle a b : contains needle (a ++ needle ++ b) = true.
Proof.
  induction a as [|c a IH]; simpl.
  - destruct needle; simpl; [now destruct b|].
    now rewrite Ascii.eqb_refl, starts_with_append.
  - rewrite IH. apply orb_true_r.
Qed.

Lemma indent4 indent t :
  (indent ++ String " " (String " " (String " " (String " " t))))%string =
  ((indent ++ "    ") ++ t)%string.
Proof. now rewrite append_assoc. Qed.

Lemma group_1 x i : group (set_group 2 x (set_group 1 i no_groups)) 1 = i.
Proof. reflexivity. Qed.

Lemma group_2 x i : group (set_group 2 x (set_group 1 i no_groups)) 2 = x.
Proof. reflexivity. Qed.

Lemma bare_as_other indent ws name args rest :
  bare_return indent ws name args rest =
  (indent ++ String "r" ("eturn" ++ ws ++ call_text name args ++ ";" ++ rest))%string.
Proof. unfold bare_return, ret_text; now rewrite !append_assoc. Qed.

Lemma case_as_prefix indent label ws1 ws name args rest :
  case_return indent label ws1 ws name args rest =
  (indent ++ label_text label ws1 ++ "return"
     ++ ws ++ call_text name args ++ ";" ++ rest)%string.
Proof. unfold case_return, ret_text; now rewrite !append_assoc. Qed.

(** A bare [return] without [case ] anywhere in the line gives two lines. *)
Lemma replacement_bare indent ws name args rest :
  blank indent = true -> some_of is_space ws = true ->
  some_of is_word name = true -> some_of not_rparen args = true ->
  replacement (bare_return indent ws name args rest) =
  if contains "case " (bare_return indent ws name args rest)
  then None
  else Some (bare_lines indent (call_text name args)).
Proof.
  intros Hind Hws Hname Hargs. unfold replacement.
  unfold bare_return at 1.
  rewrite match_return_bare by trivial.
  cbn [starts_with Ascii.eqb Bool.eqb andb append].
  rewrite group_1, group_2.
  destruct (contains "case " _); [|reflexivity].
  rewrite bare_as_other, match_case_other; trivial.
Qed.

(** A labelled [return] gives three lines. *)
Lemma replacement_case indent label ws1 ws name args rest :
  blank indent = true -> some_of is_word label = true -> blank ws1 = true ->
  some_of is_space ws = true ->
  some_of is_word name = true -> some_of not_rparen args = true ->
  replacement (case_return indent label ws1 ws name args rest) =
  Some (case_lines indent label (call_text name args)).
Proof.
  intros Hind Hlabel Hws1 Hws Hname Hargs. unfold replacement.
  unfold case_return at 1.
  rewrite match_return_case by trivial.
  cbn [starts_with Ascii.eqb Bool.eqb andb append].
  rewrite group_1, group_2.
  replace (contains "case " _) with true
    by (symmetry; rewrite case_as_prefix; unfold label_text;
        rewrite !append_assoc; apply contains_append).
  rewrite case_as_prefix, match_case_case by trivial.
  rewrite group_1, group_2.
  unfold case_lines. now rewrite !append_assoc.
Qed.

(** Every replacement comes from one of the two shapes. *)
Lemma replacement_inv line out :
  replacement line = Some out ->
  (exists indent ws name args rest,
     line = bare_return indent ws name args rest /\
     blank indent = true /\ some_of is_space ws = true /\
     some_of is_word name = true /\ some_of not_rparen args = true /\
     contains "case " line = false /\
     out = bare_lines indent (call_text name args)) \/
  (exists indent label ws1 ws name args rest,
     line = case_return indent label ws1 ws name args rest /\
     blank indent = true /\ some_of is_word label = true /\
     blank ws1 = true /\ some_of is_space ws = true /\
     some_of is_word name = true /\ some_of not_rparen args = true /\
     out = case_lines indent label (call_text name args)).
Proof.
  intros H.
  assert (Hm : exists m, re_match return_re line = Some m).
  { unfold replacement in H.
    destruct (re_match return_re line); [eauto | discriminate]. }
  destruct Hm as (m & Hm).
  apply match_return_inv in Hm
    as (indent & pre & ws & name & args & rest & E & Hind & Hpre & Hws & Hname
        & Hargs & _).
  destruct Hpre as [-> | (label & ws1 & -> & Hlabel & Hws1)].
  - left. change (line = bare_return indent ws name args rest) in E.
    exists indent, ws, name, args, rest.
    rewrite E, replacement_bare in H by trivial.
    rewrite <- E in H.
    destruct (contains "case " line); [discriminate|].
    injection H as <-. repeat split; trivial.
  - right. change (line = case_return indent label ws1 ws name args rest) in E.
    exists indent, label, ws1, ws, name, args, rest.
    rewrite E, replacement_case in H by trivial.
    injection H as <-. repeat split; trivial.
Qed.

(** No line of a replacement is replaced again: after its indentation it
    starts with [binary_result] or [goto], or it is a label that ends the
    line. *)
Lemma replacement_fixed line out e :
  replacement line = Some out -> In e out -> replacement e = None.
Proof.
  intros H Hin.
  assert (Hfail : re_match return_re e = None).
  { apply replacement_inv in H
      as [(indent & ws & name & args & rest & _ & Hind & _ & _ & _ & _ & ->)
         |(indent & label & ws1 & ws & name & args & rest & _ & Hind & Hlabel
           & _ & _ & _ & _ & ->)].
    - destruct Hin as [<- | [<- | []]];
        now apply (match_return_other indent).
    - assert (Hind4 : blank (indent ++ "    ") = true)
        by (unfold blank in *; now rewrite all_append, Hind).
      destruct Hin as [<- | [<- | [<- | []]]].
      + now apply match_return_label_line.
      + cbn [append]. rewrite indent4.
        now apply (match_return_other (indent ++ "    ")).
      + cbn [append]. rewrite indent4.
        now apply (match_return_other (indent ++ "    ")). }
  unfold replacement; now rewrite Hfail.
Qed.

(** So nothing the loop appends inside the window is changed by the loop
    body again. *)
Lemma process_line_fixed line e :
  In e (process_line true line) -> process_line true e = [e].
Proof.
  unfold process_line at 1; cbn [andb].
  destruct (contains "return val_" line) eqn:Hgate.
  - destruct (replacement line) as [out|] eqn:Hout.
    + intros Hin. unfold process_line.
      rewrite (replacement_fixed _ _ _ Hout Hin).
      now destruct (true && contains "return val_" e).
    + intros [<- | []]. unfold process_line; cbn [andb].
      now rewrite Hgate, Hout.
  - intros [<- | []]. unfold process_line; cbn [andb]. now rewrite Hgate.
Qed.

End Replacement.

(** ** The loop *)

Section Loop.

(** Once iteration [i - 1] has left the flag at [window (i - 1)], iteration
    [i] leaves it at [window i]. *)
Lemma update_range_window i :
  1 <= i -> update_range i (window (i - 1)) = window i.
Proof.
  intros Hi; unfold update_range, window.
  destruct (Nat.eqb_spec i 175) as [->|Hne].
  - reflexivity.
  - destruct (Nat.leb_spec 605 i) as [H1|H1];
      destruct (Nat.leb_spec 175 (i - 1)) as [H2|H2];
      destruct (Nat.ltb_spec (i - 1) 605) as [H3|H3];
      destruct (Nat.leb_spec 175 i) as [H4|H4];
      destruct (Nat.ltb_spec i 605) as [H5|H5];
      cbn [andb]; try reflexivity; lia.
Qed.

Lemma range_flag_window i : range_flag i = window i.
Proof.
  induction i as [|j IH]; [reflexivity|].
  cbn [range_flag]. rewrite IH.
  pose proof (update_range_window (S j)) as H.
  replace (S j - 1) with j in H by lia.
  apply H; lia.
Qed.

Lemma window_spec i : window i = true <-> 175 <= i < 605.
Proof.
  unfold window; rewrite andb_true_iff, Nat.leb_le, Nat.ltb_lt; tauto.
Qed.

Lemma loop_acc lines : forall i flag acc,
  loop i flag lines acc = acc ++ loop i flag lines [].
Proof.
  induction lines as [|line lines IH]; intros i flag acc; cbn [loop].
  - now rewrite app_nil_r.
  - rewrite IH, (IH _ _ ([] ++ _)). cbn [app]. now rewrite app_assoc.
Qed.

(** The loop from iteration [i] on: the lines before 175 are copied, the
    lines from 175 to 604 go through the loop body with the flag set, the
    lines from 605 on are copied. *)
Lemma loop_window lines : forall i,
  1 <= i ->
  loop i (window (i - 1)) lines [] =
  firstn (175 - i) lines ++
  flat_map (process_line true)
    (firstn (605 - i - (175 - i)) (skipn (175 - i) lines)) ++
  skipn (605 - i) lines.
Proof.
  induction lines as [|line lines IH]; intros i Hi.
  - cbn [loop]. rewrite !skipn_nil, !firstn_nil. reflexivity.
  - cbn [loop]. rewrite loop_acc, update_range_window by trivial.
    cbn [app].
    replace (window i) with (window (S i - 1)) at 2 by (f_equal; lia).
    rewrite IH by lia.
    destruct (Nat.lt_ge_cases i 175) as [Hlo|Hlo].
    + replace (window i) with false
        by (symmetry; apply not_true_is_false; rewrite window_spec; lia).
      cbn [process_line andb app].
      replace (175 - i) with (S (175 - S i)) by lia.
      replace (605 - i) with (S (605 - S i)) by lia.
      rewrite firstn_cons, !skipn_cons. cbn [app].
      repeat f_equal; lia.
    + replace (175 - i) with 0 by lia.
      replace (175 - S i) with 0 by lia.
      cbn [firstn skipn app]. rewrite !Nat.sub_0_r.
      destruct (Nat.lt_ge_cases i 605) as [Hhi|Hhi].
      * replace (window i) with true
          by (symmetry; rewrite window_spec; lia).
        replace (605 - i) with (S (605 - S i)) by lia.
        rewrite firstn_cons, skipn_cons. cbn [flat_map].
        now rewrite app_assoc.
      * replace (window i) with false
          by (symmetry; apply not_true_is_false; rewrite window_spec; lia).
        replace (605 - i) with 0 by lia.
        replace (605 - S i) with 0 by lia.
        cbn [process_line andb firstn skipn flat_map app]. reflexivity.
Qed.

Lemma transform_window lines :
  transform lines =
  firstn 174 lines ++
  flat_map (process_line true) (firstn 430 (skipn 174 lines)) ++
  skipn 604 lines.
Proof.
  unfold transform.
  change false with (window (1 - 1)).
  rewrite loop_window by lia.
  reflexivity.
Qed.

Lemma flat_map_fixed (f : string -> list string) l :
  (forall e, In e l -> f e = [e]) -> flat_map f l = l.
Proof.
  induction l as [|x l IH]; intros H; cbn [flat_map]; [reflexivity|].
  rewrite (H x) by now left.
  cbn [app]; f_equal; apply IH; intros e He; apply H; now right.
Qed.

Lemma process_line_nonempty b line : process_line b line <> [].
Proof.
  unfold process_line.
  destruct (b && contains "return val_" line); [|discriminate].
  destruct (replacement line) as [out|] eqn:H; [|discriminate].
  apply replacement_inv in H as [(? & ? & ? & ? & ? & H)|(? & ? & ? & ? & ? & ? & ? & H)];
    decompose [and] H; subst out; discriminate.
Qed.

Lemma flat_map_length_ge l :
  length l <= length (flat_map (process_line true) l).
Proof.
  induction l as [|x l IH]; cbn [flat_map length]; [lia|].
  rewrite length_app.
  pose proof (process_line_nonempty true x) as Hne.
  destruct (process_line true x); [congruence | cbn [length]; lia].
Qed.

(** The flag the loop body sees at line [i] is [range_flag i]. *)
Lemma loop_flags lines : forall i,
  1 <= i ->
  loop i (range_flag (i - 1)) lines [] =
  concat (map (fun il => process_line (range_flag (fst il)) (snd il))
              (combine (seq i (length lines)) lines)).
Proof.
  induction lines as [|line lines IH]; intros i Hi; [reflexivity|].
  cbn [loop length seq combine map concat fst snd].
  rewrite loop_acc. cbn [app].
  replace (update_range i (range_flag (i - 1))) with (range_flag i)
    by (destruct i; [lia | cbn [range_flag]; do 2 f_equal; lia]).
  f_equal.
  replace (range_flag i) with (range_flag (S i - 1)) by (f_equal; lia).
  apply IH; lia.
Qed.

End Loop.

(** ** The second run *)

Section SecondRun.

Lemma in_firstn {A : Type} n (l : list A) e : In e (firstn n l) -> In e l.
Proof.
  intros H; rewrite <- (firstn_skipn n l); apply in_or_app; now left.
Qed.

(** Every line the first run leaves at a position of the window is left
    alone by the loop body. *)
Lemma window_lines_fixed lines e :
  In e (firstn 430 (skipn 174 (transform lines))) -> process_line true e = [e].
Proof.
  rewrite transform_window.
  destruct (Nat.le_gt_cases (length lines) 174) as [Hshort|Hlong].
  - rewrite (skipn_all2 lines) by lia.
    rewrite (skipn_all2 lines) by lia.
    rewrite firstn_nil; cbn [flat_map app]. rewrite app_nil_r.
    rewrite skipn_all2 by (rewrite length_firstn; lia).
    rewrite firstn_nil. intros [].
  - rewrite skipn_app, length_firstn.
    rewrite skipn_all2 by (rewrite length_firstn; lia).
    replace (174 - Nat.min 174 (length lines)) with 0 by lia.
    rewrite skipn_O, app_nil_l, firstn_app.
    intros H; apply in_app_or in H as [H|H].
    + apply in_firstn in H. apply in_flat_map in H as (x & _ & Hx).
      now apply (process_line_fixed x).
    + exfalso. destruct (Nat.le_gt_cases 604 (length lines)) as [Hfull|Hpart].
      * pose proof (flat_map_length_ge (firstn 430 (skipn 174 lines))) as Hge.
        rewrite length_firstn, length_skipn in Hge.
        rewrite Nat.min_l in Hge by lia.
        apply Nat.sub_0_le in Hge. rewrite Hge in H. exact H.
      * rewrite (skipn_all2 (n:=604) lines) in H by lia.
        now rewrite firstn_nil in H.
Qed.

End SecondRun.

(** ** The script's input and output *)

Section Script.

Lemma read_lines_world p w : snd (IO.read_lines p w) = w.
Proof.
  unfold IO.read_lines.
  destruct (IO.find p (IO.disk w)) as [f|]; [|reflexivity].
  destruct (IO.can_read f); [|reflexivity].
  now destruct (IO.text f).
Qed.

End Script.

(** ** The properties of the specification *)

Section Shapes.

Variables indent ws name args rest : string.
Hypothesis Hindent : blank indent = true.
Hypothesis Hws : some_of is_space ws = true.
Hypothesis Hname : some_of is_word name = true.
Hypothesis Hargs : some_of not_rparen args = true.

(** A bare [return] that passes the gate and has no [case ] in it. *)
Lemma process_bare :
  contains "return val_" (bare_return indent ws name args rest) = true ->
  contains "case " (bare_return indent ws name args rest) = false ->
  process_line true (bare_return indent ws name args rest) =
  bare_lines indent (call_text name args).
Proof.
  intros Hgate Hcase. unfold process_line.
  rewrite Hgate, replacement_bare, Hcase by trivial. reflexivity.
Qed.

(** A labelled [return] that passes the gate. *)
Lemma process_case label ws1 :
  some_of is_word label = true -> blank ws1 = true ->
  contains "return val_" (case_return indent label ws1 ws name args rest) = true ->
  process_line true (case_return indent label ws1 ws name args rest) =
  case_lines indent label (call_text name args).
Proof.
  intros Hlabel Hws1 Hgate. unfold process_line.
  rewrite Hgate, replacement_case by trivial. reflexivity.
Qed.

End Shapes.

(** C1, as the code has it: inside the window a bare [return] that is
    rewritten gives the assignment line and the goto line at the captured
    indentation itself, with no additional spaces (the four additional
    spaces belong to the labelled shape only). *)
Theorem C1_bare_return_keeps_indentation indent ws name args rest :
  blank indent = true -> some_of is_space ws = true ->
  some_of is_word name = true -> some_of not_rparen args = true ->
  contains "return val_" (bare_return indent ws name args rest) = true ->
  contains "case " (bare_return indent ws name args rest) = false ->
  process_line true (indent ++ "return" ++ ws ++ call_text name args ++ ";" ++ rest) =
  [ indent ++ "binary_result = " ++ call_text name args ++ ";" ++ nl;
    indent ++ "goto binary_cleanup;" ++ nl ]%string.
Proof.
  intros Hindent Hws Hname Hargs Hgate Hcase.
  replace (indent ++ "return" ++ ws ++ call_text name args ++ ";" ++ rest)%string
    with (bare_return indent ws name args rest)
    by (unfold bare_return, ret_text; now rewrite !append_assoc).
  now apply process_bare.
Qed.

(** The line of the specification: two blanks of indentation in, two blanks
    of indentation out. *)
Lemma C1_example :
  process_line true ("  return val_int(42);" ++ nl) =
  [ "  binary_result = val_int(42);" ++ nl; "  goto binary_cleanup;" ++ nl ]%string.
Proof.
  apply (C1_bare_return_keeps_indentation "  " " " "int" "42" nl); reflexivity.
Defined.

(** C1 as stated fails: the output for the line of the specification is not
    indented four spaces deeper than the input. *)
Lemma C1_not_four_spaces_deeper :
  process_line true ("  return val_int(42);" ++ nl) <>
  [ "      binary_result = val_int(42);" ++ nl;
    "      goto binary_cleanup;" ++ nl ]%string.
Proof. vm_compute. discriminate. Qed.

(** C2, as the code has it: a bare [return] in the window is matched and
    replaced by the two lines when the line also contains the text
    [return val_] (one blank before [val_]), the callee has a word
    character after [val_], and [case ] occurs nowhere in the line. *)
Theorem C2_gated_bare_return_is_rewritten indent ws name args rest :
  blank indent = true -> some_of is_space ws = true ->
  some_of is_word name = true -> some_of not_rparen args = true ->
  contains "return val_" (bare_return indent ws name args rest) = true ->
  contains "case " (bare_return indent ws name args rest) = false ->
  (exists m,
     re_match return_re (bare_return indent ws name args rest) = Some m /\
     group m 1 = indent /\ group m 2 = call_text name args) /\
  length (process_line true (bare_return indent ws name args rest)) = 2 /\
  process_line true (bare_return indent ws name args rest) <>
  [bare_return indent ws name args rest].
Proof.
  intros Hindent Hws Hname Hargs Hgate Hcase. split.
  - exists (set_group 2 (call_text name args) (set_group 1 indent no_groups)).
    split; [|split; reflexivity].
    unfold bare_return. now rewrite match_return_bare by trivial.
  - rewrite process_bare by trivial. split; [reflexivity | discriminate].
Qed.

Lemma C2_example :
  (exists m,
     re_match return_re ("  return val_int(42);" ++ nl) = Some m /\
     group m 1 = "  " /\ group m 2 = "val_int(42)") /\
  length (process_line true ("  return val_int(42);" ++ nl)) = 2 /\
  process_line true ("  return val_int(42);" ++ nl) <>
  ["  return val_int(42);" ++ nl]%string.
Proof.
  apply (C2_gated_bare_return_is_rewritten "  " " " "int" "42" nl); reflexivity.
Defined.

(** C2 as stated fails: with two blanks after [return] the line has the
    shape, the pattern itself matches it, and the gate passes it through
    unchanged. *)
Lemma C2_two_blanks_passed_through :
  ("  return  val_int(42);" ++ nl)%string = bare_return "  " "  " "int" "42" nl /\
  some_of is_space "  " = true /\
  re_match return_re ("  return  val_int(42);" ++ nl) <> None /\
  process_line true ("  return  val_int(42);" ++ nl) =
  ["  return  val_int(42);" ++ nl]%string.
Proof.
  split; [reflexivity|]. split; [reflexivity|].
  split; [|reflexivity].
  change ("  return  val_int(42);" ++ nl)%string
    with ("  " ++ ret_text "  " "int" "42" ++ ";" ++ nl)%string.
  rewrite match_return_bare by reflexivity.
  discriminate.
Qed.

(** C3: the flag is open exactly on the lines 175 to 604: it opens at
    line 175, stays open up to line 604, is closed from line 605 on, and
    the loop body of line [i] sees exactly this flag. *)
Theorem C3_window_is_175_to_604 :
  (forall i, range_flag i = true <-> 175 <= i < 605) /\
  (forall lines,
     transform lines =
     concat (map (fun il => process_line (range_flag (fst il)) (snd il))
                 (combine (seq 1 (length lines)) lines))).
Proof.
  split.
  - intros i. rewrite range_flag_window. apply window_spec.
  - intros lines. unfold transform.
    change false with (range_flag (1 - 1)). apply loop_flags. lia.
Qed.

(** C7: the lines before line 175 and the lines from line 605 on are
    copied as they are, one output line each and in order; only the lines
    between them go through the rewriting. *)
Theorem C7_lines_outside_window_are_copied lines :
  transform lines =
  firstn 174 lines ++
  flat_map (process_line true) (firstn 430 (skipn 174 lines)) ++
  skipn 604 lines.
Proof. apply transform_window. Qed.

(** C4, as the code has it: running the rewrite on its own output changes
    nothing.  No line of the first output is rewritten again: the lines it
    emitted fail the pattern of the first [re.match] (even when their text
    contains the gate [return val_]), and the lines it passed through are
    passed through again. *)
Theorem C4_second_run_changes_nothing lines :
  transform (transform lines) = transform lines.
Proof.
  rewrite (transform_window (transform lines)).
  rewrite flat_map_fixed by apply window_lines_fixed.
  replace (skipn 604 (transform lines))
    with (skipn 430 (skipn 174 (transform lines)))
    by (now rewrite skipn_skipn).
  now rewrite !firstn_skipn.
Qed.

(** C4 as stated fails in its reason: an emitted line can contain the gate
    text, here inside a comment of the argument. *)
Lemma C4_emitted_line_contains_gate :
  In ("  binary_result = val_int(x /* not return val_null */);" ++ nl)%string
     (process_line true ("  return val_int(x /* not return val_null */);" ++ nl)) /\
  contains "return val_"
    ("  binary_result = val_int(x /* not return val_null */);" ++ nl) = true.
Proof. split; vm_compute; [left|]; reflexivity. Qed.

(** C5, as the code has it: when the first closing parenthesis after the
    call's opening parenthesis is not followed at once by a semicolon, the
    line is passed through unchanged, bare or labelled. *)
Theorem C5_nested_call_is_passed_through indent ws name args rest :
  blank indent = true -> some_of is_space ws = true ->
  some_of is_word name = true -> some_of not_rparen args = true ->
  starts_with ";" rest = false ->
  process_line true (indent ++ ret_text ws name args ++ rest) =
  [indent ++ ret_text ws name args ++ rest]%string /\
  forall label ws1,
    some_of is_word label = true -> blank ws1 = true ->
    process_line true
      (indent ++ label_text label ws1 ++ ret_text ws name args ++ rest) =
    [indent ++ label_text label ws1 ++ ret_text ws name args ++ rest]%string.
Proof.
  intros Hindent Hws Hname Hargs Hrest. split; [|intros label ws1 Hlabel Hws1];
    unfold process_line, replacement.
  - rewrite match_return_bare, Hrest by trivial.
    now destruct (true && _).
  - rewrite match_return_case, Hrest by trivial.
    now destruct (true && _).
Qed.

(** The line of the specification: its argument text up to the first
    closing parenthesis is [f(x], and a comma follows. *)
Lemma C5_example :
  process_line true ("    return val_call(f(x), y);" ++ nl) =
  ["    return val_call(f(x), y);" ++ nl]%string.
Proof.
  exact (proj1 (C5_nested_call_is_passed_through "    " " " "call" "f(x"
                  (", y);" ++ nl) eq_refl eq_refl eq_refl eq_refl eq_refl)).
Defined.

(** C5 as stated fails: when a semicolon does follow the first inner closing
    parenthesis, the assignment holds the expression cut there. *)
Lemma C5_truncated_at_inner_parenthesis :
  process_line true ("    return val_int(({ f(x); 1; }));" ++ nl) =
  [ "    binary_result = val_int(({ f(x);" ++ nl;
    "    goto binary_cleanup;" ++ nl ]%string.
Proof. vm_compute. reflexivity. Qed.

(** C8: when reading the file raises, the script ends with that exception
    and the world is the one it started in: nothing written, nothing
    printed. *)
Theorem C8_read_failure_leaves_file_untouched w e :
  fst (IO.read_lines IO.path w) = inl e -> IO.main w = (inl e, w).
Proof.
  intros H. unfold IO.main, IO.bind.
  pose proof (read_lines_world IO.path w) as Hw.
  destruct (IO.read_lines IO.path w) as [[e'|lines] w']; cbn [fst snd] in *.
  - congruence.
  - discriminate.
Qed.

Lemma C8_missing_file :
  IO.main (IO.mkWorld [] [] nl None) =
  (inl IO.FileNotFoundError, IO.mkWorld [] [] nl None).
Proof.
  apply (C8_read_failure_leaves_file_untouched (IO.mkWorld [] [] nl None));
    reflexivity.
Defined.

(** C9, as the code has it: when replacement lines are emitted for a line,
    they are the same whatever text follows the semicolon of the statement;
    that text reaches none of them. *)
Theorem C9_text_after_semicolon_is_dropped line out :
  replacement line = Some out ->
  exists indent pre ws name args tail,
    line = (indent ++ pre ++ ret_text ws name args ++ ";" ++ tail)%string /\
    some_of not_rparen args = true /\
    forall tail' out',
      replacement (indent ++ pre ++ ret_text ws name args ++ ";" ++ tail') =
      Some out' ->
      out' = out.
Proof.
  intros H. apply replacement_inv in H
    as [(indent & ws & name & args & rest & -> & Hind & Hws & Hname & Hargs & _ & ->)
       |(indent & label & ws1 & ws & name & args & rest & -> & Hind & Hlabel
         & Hws1 & Hws & Hname & Hargs & ->)].
  - exists indent, "", ws, name, args, rest. repeat split; trivial.
    intros tail' out' H'.
    change (replacement (bare_return indent ws name args tail') = Some out') in H'.
    rewrite replacement_bare in H' by trivial.
    destruct (contains "case " _); congruence.
  - exists indent, (label_text label ws1), ws, name, args, rest.
    repeat split; trivial.
    intros tail' out' H'.
    change (replacement (case_return indent label ws1 ws name args tail')
            = Some out') in H'.
    rewrite replacement_case in H' by trivial. congruence.
Qed.

Lemma C9_example :
  exists indent pre ws name args tail,
    ("  return val_int(42); /* note */" ++ nl)%string =
    (indent ++ pre ++ ret_text ws name args ++ ";" ++ tail)%string /\
    some_of not_rparen args = true /\
    forall tail' out',
      replacement (indent ++ pre ++ ret_text ws name args ++ ";" ++ tail') =
      Some out' ->
      out' = [ "  binary_result = val_int(42);" ++ nl;
               "  goto binary_cleanup;" ++ nl ]%string.
Proof.
  apply (C9_text_after_semicolon_is_dropped
           ("  return val_int(42); /* note */" ++ nl)); vm_compute; reflexivity.
Defined.

(** C9 as stated fails: this line is matched by the first [re.match], yet it
    is passed through whole, its trailing comment included, because the
    comment contains [case ]. *)
Lemma C9_trailing_text_kept :
  re_match return_re ("  return val_int(42); /* in case of overflow */" ++ nl)
    <> None /\
  process_line true ("  return val_int(42); /* in case of overflow */" ++ nl) =
  ["  return val_int(42); /* in case of overflow */" ++ nl]%string.
Proof.
  split; [|vm_compute; reflexivity].
  change ("  return val_int(42); /* in case of overflow */" ++ nl)%string
    with ("  " ++ ret_text " " "int" "42" ++ "; /* in case of overflow */" ++ nl)%string.
  rewrite match_return_bare by reflexivity.
  discriminate.
Qed.

(** ** Further properties of the script *)

Section Uniqueness.

(** A run of a class is determined by the text: two ways of cutting a text
    into characters of the class followed by a character outside it
    coincide. *)
Lemma class_prefix_unique p a b c1 t1 c2 t2 :
  all p a = true -> all p b = true -> p c1 = false -> p c2 = false ->
  (a ++ String c1 t1)%string = (b ++ String c2 t2)%string ->
  a = b /\ String c1 t1 = String c2 t2.
Proof.
  revert b; induction a as [|x a IH]; intros [|y b] Ha Hb H1 H2 E;
    cbn [append all] in *.
  - now split.
  - injection E as -> _. apply andb_true_iff in Hb as [Hy _]. congruence.
  - injection E as -> _. apply andb_true_iff in Ha as [Hx _]. congruence.
  - injection E as -> E.
    apply andb_true_iff in Ha as [_ Ha]. apply andb_true_iff in Hb as [_ Hb].
    destruct (IH b Ha Hb H1 H2 E) as [-> E']. now split.
Qed.

End Uniqueness.

(** X1: the first pattern accepts exactly the bare and the labelled
    [return] statements, and its match object holds the indentation in
    group 1 and the call in group 2. *)
Theorem X1_return_pattern_accepts_exactly line m :
  re_match return_re line = Some m <->
  exists indent pre ws name args rest,
    line = (indent ++ pre ++ ret_text ws name args ++ ";" ++ rest)%string /\
    blank indent = true /\
    (pre = "" \/
     exists label ws1, pre = label_text label ws1 /\
       some_of is_word label = true /\ blank ws1 = true) /\
    some_of is_space ws = true /\ some_of is_word name = true /\
    some_of not_rparen args = true /\
    m = set_group 2 (call_text name args) (set_group 1 indent no_groups).
Proof.
  split; [apply match_return_inv|].
  intros (indent & pre & ws & name & args & rest & -> & Hind & Hpre & Hws
          & Hname & Hargs & ->).
  destruct Hpre as [-> | (label & ws1 & -> & Hlabel & Hws1)].
  - cbn [append]. now rewrite match_return_bare by trivial.
  - now rewrite match_return_case by trivial.
Qed.

(** X2: the second pattern accepts exactly the lines that start with
    indentation, a label, optional white space and [return]; group 1 is the
    indentation and group 2 the label with its keyword. *)
Theorem X2_case_pattern_accepts_exactly line m :
  re_match case_re line = Some m <->
  exists indent label ws1 rest,
    line = (indent ++ label_text label ws1 ++ "return" ++ rest)%string /\
    blank indent = true /\ some_of is_word label = true /\
    blank ws1 = true /\
    m = set_group 2 ("case " ++ label) (set_group 1 indent no_groups).
Proof.
  split; [apply match_case_inv|].
  intros (indent & label & ws1 & rest & -> & Hind & Hlabel & Hws1 & ->).
  now apply match_case_case.
Qed.

(** X3: the body of [if match:] appends new lines in exactly two cases: a
    bare [return] whose line has no [case ] anywhere, which gives the two
    lines at its indentation, and a labelled [return], which gives the label
    and the two lines four spaces deeper. *)
Theorem X3_replacement_exactly line out :
  replacement line = Some out <->
  (exists indent ws name args rest,
     line = bare_return indent ws name args rest /\
     blank indent = true /\ some_of is_space ws = true /\
     some_of is_word name = true /\ some_of not_rparen args = true /\
     contains "case " line = false /\
     out = bare_lines indent (call_text name args)) \/
  (exists indent label ws1 ws name args rest,
     line = case_return indent label ws1 ws name args rest /\
     blank indent = true /\ some_of is_word label = true /\
     blank ws1 = true /\ some_of is_space ws = true /\
     some_of is_word name = true /\ some_of not_rparen args = true /\
     out = case_lines indent label (call_text name args)).
Proof.
  split; [apply replacement_inv|].
  intros [(indent & ws & name & args & rest & -> & Hind & Hws & Hname & Hargs
           & Hcase & ->)
         |(indent & label & ws1 & ws & name & args & rest & -> & Hind & Hlabel
           & Hws1 & Hws & Hname & Hargs & ->)].
  - now rewrite replacement_bare, Hcase by trivial.
  - now apply replacement_case.
Qed.

(** X4: when both patterns match a line, they capture the same indentation,
    the line is a labelled [return], and the three lines appended are the
    label at that indentation, then the assignment of group 2 and the goto
    four spaces deeper. *)
Theorem X4_both_patterns_agree line m m' :
  re_match return_re line = Some m -> re_match case_re line = Some m' ->
  group m' 1 = group m 1 /\
  exists label,
    some_of is_word label = true /\
    group m' 2 = ("case " ++ label)%string /\
    replacement line = Some (case_lines (group m 1) label (group m 2)).
Proof.
  intros H H'.
  apply match_return_inv in H
    as (indent & pre & ws & name & args & rest & E & Hind & Hpre & Hws & Hname
        & Hargs & ->).
  apply match_case_inv in H'
    as (indent' & label' & ws1' & rest' & E' & Hind' & Hlabel' & Hws1' & ->).
  rewrite !group_1, !group_2.
  rewrite E in E'. unfold label_text, ret_text in E'.
  destruct Hpre as [-> | (label & ws1 & -> & Hlabel & Hws1)].
  - exfalso. rewrite ?append_assoc in E'. cbn [append] in E'.
    apply (class_prefix_unique is_space) in E' as [_ E']; trivial. discriminate.
  - unfold label_text in E'. rewrite ?append_assoc in E'. cbn [append] in E'.
    apply (class_prefix_unique is_space) in E' as [<- E']; trivial.
    split; [reflexivity|].
    injection E' as E'.
    destruct (some_of_inv _ _ Hlabel) as [Hl1 Hl2].
    destruct (some_of_inv _ _ Hlabel') as [Hl1' Hl2'].
    apply (class_prefix_unique is_word) in E' as [<- _]; trivial.
    exists label. split; [exact Hlabel|]. split; [reflexivity|].
    rewrite E. now apply replacement_case.
Qed.

Lemma X4_example :
  group (set_group 2 "case OP_ADD" (set_group 1 "    " no_groups)) 1 =
  group (set_group 2 "val_add(a, b)" (set_group 1 "    " no_groups)) 1 /\
  exists label,
    some_of is_word label = true /\
    group (set_group 2 "case OP_ADD" (set_group 1 "    " no_groups)) 2 =
    ("case " ++ label)%string /\
    replacement ("    case OP_ADD: return val_add(a, b);" ++ nl) =
    Some (case_lines
            (group (set_group 2 "val_add(a, b)" (set_group 1 "    " no_groups)) 1)
            label
            (group (set_group 2 "val_add(a, b)" (set_group 1 "    " no_groups)) 2)).
Proof.
  apply (X4_both_patterns_agree ("    case OP_ADD: return val_add(a, b);" ++ nl));
    vm_compute; reflexivity.
Defined.

(** X5: the inner [else] branch, which appends a matched line unchanged, is
    taken exactly by the bare [return] statements whose line contains
    [case ] somewhere; a labelled [return] never takes it. *)
Theorem X5_matched_line_kept_exactly line :
  (exists m, re_match return_re line = Some m) /\ replacement line = None <->
  exists indent ws name args rest,
    line = bare_return indent ws name args rest /\
    blank indent = true /\ some_of is_space ws = true /\
    some_of is_word name = true /\ some_of not_rparen args = true /\
    contains "case " line = true.
Proof.
  split.
  - intros [(m & Hm) Hnone].
    apply match_return_inv in Hm
      as (indent & pre & ws & name & args & rest & E & Hind & Hpre & Hws
          & Hname & Hargs & _).
    destruct Hpre as [-> | (label & ws1 & -> & Hlabel & Hws1)].
    + change (line = bare_return indent ws name args rest) in E.
      exists indent, ws, name, args, rest. repeat split; trivial.
      rewrite E, replacement_bare in Hnone by trivial. rewrite <- E in Hnone.
      now destruct (contains "case " line).
    + change (line = case_return indent label ws1 ws name args rest) in E.
      rewrite E, replacement_case in Hnone by trivial. discriminate.
  - intros (indent & ws & name & args & rest & -> & Hind & Hws & Hname & Hargs
            & Hcase).
    split.
    + eexists. unfold bare_return. now rewrite match_return_bare by trivial.
    + now rewrite replacement_bare, Hcase by trivial.
Qed.

Section Counting.

Lemma process_line_length b line :
  1 <= length (process_line b line) <= 3.
Proof.
  unfold process_line.
  destruct (b && contains "return val_" line); [|cbn [length]; lia].
  destruct (replacement line) as [out|] eqn:H; [|cbn [length]; lia].
  apply replacement_inv in H
    as [(? & ? & ? & ? & ? & H)|(? & ? & ? & ? & ? & ? & ? & H)];
    decompose [and] H; subst out; cbn [bare_lines case_lines length]; lia.
Qed.

Lemma flat_map_length_le l :
  length (flat_map (process_line true) l) <= 3 * length l.
Proof.
  induction l as [|x l IH]; cbn [flat_map length]; [lia|].
  rewrite length_app. pose proof (process_line_length true x). lia.
Qed.

Lemma window_split (lines : list string) :
  firstn 174 lines ++ firstn 430 (skipn 174 lines) ++ skipn 604 lines = lines.
Proof.
  replace (skipn 604 lines) with (skipn 430 (skipn 174 lines))
    by (now rewrite skipn_skipn).
  now rewrite !firstn_skipn.
Qed.

Lemma flat_map_same l :
  flat_map (process_line true) l = l ->
  forall e, In e l -> process_line true e = [e].
Proof.
  induction l as [|x l IH]; intros E e Hin; [destruct Hin|].
  cbn [flat_map] in E.
  pose proof (process_line_length true x) as Hx.
  pose proof (flat_map_length_ge l) as Hl.
  assert (Hlen : length (process_line true x ++ flat_map (process_line true) l)
                 = length (x :: l)) by now rewrite E.
  rewrite length_app in Hlen. cbn [length] in Hlen.
  destruct (process_line true x) as [|y [|z ys]] eqn:Hpx;
    cbn [length] in *; try lia.
  cbn [app] in E. injection E as -> E.
  destruct Hin as [<- | Hin]; [exact Hpx | now apply IH].
Qed.

End Counting.

(** X6: the script never drops a line and adds at most two lines for each of
    the 430 lines of the window. *)
Theorem X6_line_count_bounds lines :
  length lines <= length (transform lines) <= length lines + 2 * 430.
Proof.
  rewrite transform_window.
  assert (Hlen : length lines =
                 length (firstn 174 lines)
                 + (length (firstn 430 (skipn 174 lines))
                    + length (skipn 604 lines)))
    by (rewrite <- (window_split lines) at 1; now rewrite !length_app).
  rewrite !length_app.
  pose proof (flat_map_length_ge (firstn 430 (skipn 174 lines))) as Hge.
  pose proof (flat_map_length_le (firstn 430 (skipn 174 lines))) as Hle.
  assert (Hw : length (firstn 430 (skipn 174 lines)) <= 430)
    by (rewrite length_firstn; lia).
  lia.
Qed.

(** X7: the output equals the input exactly when the loop body leaves every
    line numbered 175 to 604 as it is. *)
Theorem X7_unchanged_exactly lines :
  transform lines = lines <->
  forall line,
    In line (firstn 430 (skipn 174 lines)) -> process_line true line = [line].
Proof.
  rewrite transform_window. split.
  - intros E. apply flat_map_same.
    rewrite <- (window_split lines) in E at 4.
    apply app_inv_head in E. now apply app_inv_tail in E.
  - intros H. rewrite flat_map_fixed by exact H. apply window_split.
Qed.

(** X8: a file of fewer than 175 lines comes out as it went in, whatever its
    lines are. *)
Theorem X8_short_file_is_unchanged lines :
  length lines < 175 -> transform lines = lines.
Proof.
  intros Hshort. rewrite transform_window.
  rewrite (skipn_all2 (n:=174) lines) by lia.
  rewrite (skipn_all2 (n:=604) lines) by lia.
  rewrite firstn_nil, firstn_all2 by lia.
  cbn [flat_map app]. now rewrite app_nil_r.
Qed.

Lemma X8_example :
  transform ["  return val_int(42);" ++ nl; "  return val_null();" ++ nl]%string =
  ["  return val_int(42);" ++ nl; "  return val_null();" ++ nl]%string.
Proof.
  apply (X8_short_file_is_unchanged
           ["  return val_int(42);" ++ nl; "  return val_null();" ++ nl]%string).
  cbn [length]. lia.
Defined.

(** ** Reading and writing the file *)

Section Files.

Lemma concat_cons x xs :
  String.concat "" (x :: xs) = (x ++ String.concat "" xs)%string.
Proof.
  destruct xs as [|y ys]; cbn [String.concat append].
  - now rewrite append_nil_r.
  - reflexivity.
Qed.

Lemma find_store p f d : IO.find p (IO.store p f d) = Some f.
Proof.
  induction d as [|[q f'] d IH]; cbn [IO.store IO.find].
  - now rewrite String.eqb_refl.
  - destruct (String.eqb q p) eqn:E; cbn [IO.find]; now rewrite E.
Qed.


Lemma store_store p f d : IO.store p f (IO.store p f d) = IO.store p f d.
Proof.
  induction d as [|[q f'] d IH]; cbn [IO.store].
  - now rewrite String.eqb_refl.
  - destruct (String.eqb q p) eqn:E; cbn [IO.store]; rewrite E; [reflexivity|].
    now rewrite IH.
Qed.

End Files.

(** ** Lines of a text *)

Section Lines.

Lemma is_line_cons b c x l :
  is_line b (String c (String x l)) =
  negb (Ascii.eqb c "010") && is_line b (String x l).
Proof. reflexivity. Qed.

Lemma lines_ok_cons l l2 ls :
  lines_ok (l :: l2 :: ls) = is_line true l && lines_ok (l2 :: ls).
Proof. reflexivity. Qed.

Lemma is_line_weaken l : is_line true l = true -> is_line false l = true.
Proof.
  induction l as [|c [|x l] IH]; [discriminate | |].
  - cbn [is_line]. now destruct (Ascii.eqb c "010").
  - rewrite !is_line_cons, !andb_true_iff. intros [Hc Hl]. auto.
Qed.

Lemma split_lines_ok s : lines_ok (IO.split_lines s) = true.
Proof.
  induction s as [|c s IH]; [reflexivity|].
  cbn [IO.split_lines].
  destruct (Ascii.eqb c "010") eqn:Hc.
  - destruct (IO.split_lines s) as [|l ls].
    + cbn [lines_ok is_line]. now rewrite Hc.
    + rewrite lines_ok_cons, IH. cbn [is_line]. now rewrite Hc.
  - destruct (IO.split_lines s) as [|l [|l2 ls]].
    + cbn [lines_ok is_line]. now rewrite Hc.
    + cbn [lines_ok] in *. destruct l as [|x l]; [discriminate|].
      now rewrite is_line_cons, Hc, IH.
    + rewrite lines_ok_cons in *. apply andb_true_iff in IH as [Hl Hls].
      destruct l as [|x l]; [discriminate|].
      now rewrite is_line_cons, Hc, Hl, Hls.
Qed.

Lemma split_complete l t :
  is_line true l = true ->
  IO.split_lines (l ++ t) = l :: IO.split_lines t.
Proof.
  induction l as [|c [|x l] IH]; [discriminate | |].
  - cbn [is_line append IO.split_lines].
    destruct (Ascii.eqb c "010"); [reflexivity | discriminate].
  - rewrite is_line_cons, andb_true_iff. intros [Hc Hl].
    apply negb_true_iff in Hc.
    change (String c (String x l) ++ t)%string
      with (String c (String x l ++ t)).
    cbn [IO.split_lines]. rewrite Hc.
    change (IO.split_lines (String x (l ++ t)))
      with (IO.split_lines (String x l ++ t)).
    now rewrite (IH Hl).
Qed.

Lemma split_partial l : is_line false l = true -> IO.split_lines l = [l].
Proof.
  induction l as [|c [|x l] IH]; [discriminate | |].
  - intros _. cbn [IO.split_lines]. now destruct (Ascii.eqb c "010").
  - rewrite is_line_cons, andb_true_iff. intros [Hc Hl].
    apply negb_true_iff in Hc.
    cbn [IO.split_lines] in *. rewrite Hc. now rewrite (IH Hl).
Qed.

(** Lines of a text, written one after the other and read again, are the
    same lines. *)
Lemma split_concat ls :
  lines_ok ls = true -> IO.split_lines (String.concat "" ls) = ls.
Proof.
  induction ls as [|l [|l2 ls] IH]; [reflexivity | |].
  - cbn [lines_ok String.concat]. apply split_partial.
  - rewrite lines_ok_cons, andb_true_iff. intros [Hl Hls].
    rewrite concat_cons, split_complete by trivial. now rewrite IH.
Qed.

Lemma prefix_no_nl b a x t :
  is_line b (a ++ String x t) = true -> no_nl a = true.
Proof.
  induction a as [|c a IH]; [reflexivity|].
  cbn [append].
  replace (is_line b (String c (a ++ String x t)))
    with (negb (Ascii.eqb c "010") && is_line b (a ++ String x t))
    by (now destruct a).
  rewrite andb_true_iff. intros [Hc Ha].
  unfold no_nl in *. cbn [all]. now rewrite Hc, IH.
Qed.

Lemma complete_line a : no_nl a = true -> is_line true (a ++ nl) = true.
Proof.
  unfold no_nl. induction a as [|c a IH]; [reflexivity|].
  cbn [all append]. rewrite andb_true_iff. intros [Hc Ha].
  replace (is_line true (String c (a ++ nl)))
    with (negb (Ascii.eqb c "010") && is_line true (a ++ nl))
    by (now destruct a).
  now rewrite Hc, IH.
Qed.

Lemma no_nl_append a b : no_nl (a ++ b) = no_nl a && no_nl b.
Proof. apply all_append. Qed.

Lemma complete_line2 a b :
  no_nl a = true -> no_nl b = true -> is_line true (a ++ b ++ nl) = true.
Proof.
  intros Ha Hb. rewrite <- append_assoc. apply complete_line.
  now rewrite no_nl_append, Ha, Hb.
Qed.

Lemma complete_line4 a b c d :
  no_nl a = true -> no_nl b = true -> no_nl c = true -> no_nl d = true ->
  is_line true (a ++ b ++ c ++ d ++ nl) = true.
Proof.
  intros Ha Hb Hc Hd.
  replace (a ++ b ++ c ++ d ++ nl)%string with ((a ++ b ++ c ++ d) ++ nl)%string
    by (now rewrite !append_assoc).
  apply complete_line. now rewrite !no_nl_append, Ha, Hb, Hc, Hd.
Qed.

(** The lines of a replacement are complete lines. *)
Lemma replacement_complete b line out :
  is_line b line = true -> replacement line = Some out ->
  forallb (is_line true) out = true.
Proof.
  intros Hline H. apply replacement_inv in H
    as [(indent & ws & name & args & rest & -> & _ & _ & _ & _ & _ & ->)
       |(indent & label & ws1 & ws & name & args & rest & -> & _ & _ & _ & _
         & _ & _ & ->)].
  - unfold bare_return in Hline. rewrite <- append_assoc in Hline.
    apply prefix_no_nl in Hline.
    unfold ret_text in Hline. rewrite !no_nl_append in Hline.
    apply andb_true_iff in Hline as [Hi Hr].
    apply andb_true_iff in Hr as [_ Hr]. apply andb_true_iff in Hr as [_ Hc].
    unfold bare_lines. cbn [forallb].
    rewrite complete_line4, complete_line2 by trivial. reflexivity.
  - unfold case_return in Hline.
    rewrite <- (append_assoc (label_text label ws1)) in Hline.
    rewrite <- append_assoc in Hline.
    apply prefix_no_nl in Hline.
    unfold ret_text, label_text in Hline. rewrite !no_nl_append in Hline.
    apply andb_true_iff in Hline as [Hi Hr].
    apply andb_true_iff in Hr as [Hl Hr].
    apply andb_true_iff in Hl as [_ Hl]. apply andb_true_iff in Hl as [Hl _].
    apply andb_true_iff in Hr as [_ Hr]. apply andb_true_iff in Hr as [_ Hc].
    unfold case_lines. cbn [forallb].
    rewrite !complete_line4, complete_line2 by trivial. reflexivity.
Qed.

End Lines.

Section LinesOfTheOutput.

Lemma app_complete_ok a b :
  forallb (is_line true) a = true -> lines_ok b = true ->
  lines_ok (a ++ b) = true.
Proof.
  induction a as [|x a IH]; [trivial|].
  cbn [forallb app]. rewrite andb_true_iff. intros [Hx Ha] Hb.
  specialize (IH Ha Hb).
  destruct (a ++ b) as [|y l].
  - now apply is_line_weaken.
  - now rewrite lines_ok_cons, Hx, IH.
Qed.

Lemma process_complete b line :
  is_line true line = true -> forallb (is_line true) (process_line b line) = true.
Proof.
  intros Hline. unfold process_line.
  destruct (b && contains "return val_" line);
    [|cbn [forallb]; now rewrite Hline].
  destruct (replacement line) as [out|] eqn:H;
    [|cbn [forallb]; now rewrite Hline].
  now apply (replacement_complete true line).
Qed.

Lemma process_last b line :
  is_line false line = true -> lines_ok (process_line b line) = true.
Proof.
  intros Hline. unfold process_line.
  destruct (b && contains "return val_" line); [|exact Hline].
  destruct (replacement line) as [out|] eqn:H; [|exact Hline].
  rewrite <- (app_nil_r out). apply app_complete_ok; [|reflexivity].
  now apply (replacement_complete false line).
Qed.

(** The loop turns the lines of a text into the lines of a text. *)
Lemma loop_ok lines : forall i flag,
  lines_ok lines = true -> lines_ok (loop i flag lines []) = true.
Proof.
  induction lines as [|l [|l2 ls] IH]; intros i flag H; [reflexivity | |].
  - cbn [loop app]. now apply process_last.
  - rewrite lines_ok_cons in H. apply andb_true_iff in H as [Hl Hls].
    remember (l2 :: ls) as rest eqn:Erest.
    cbn [loop]. rewrite loop_acc. cbn [app].
    apply app_complete_ok; [now apply process_complete|].
    apply (IH (S i) _ Hls).
Qed.

Lemma transform_twice lines : transform (transform lines) = transform lines.
Proof.
  rewrite (transform_window (transform lines)).
  rewrite flat_map_fixed by apply window_lines_fixed.
  apply window_split.
Qed.

End LinesOfTheOutput.

(** X13: when no line numbered 175 to 604 contains the text [return val_],
    the output is the input. *)
Theorem X13_no_gate_text_no_change lines :
  (forall line,
     In line (firstn 430 (skipn 174 lines)) ->
     contains "return val_" line = false) ->
  transform lines = lines.
Proof.
  intros H. rewrite transform_window, flat_map_fixed; [apply window_split|].
  intros line Hin. unfold process_line. now rewrite (H line Hin).
Qed.

Lemma X13_example :
  transform (repeat ("  x = val_int(42);" ++ nl)%string 200) =
  repeat ("  x = val_int(42);" ++ nl)%string 200.
Proof.
  apply (X13_no_gate_text_no_change (repeat ("  x = val_int(42);" ++ nl)%string 200)).
  intros line Hin. apply in_firstn in Hin.
  assert (Hall : In line (repeat ("  x = val_int(42);" ++ nl)%string 200))
    by (rewrite <- (firstn_skipn 174 (repeat _ 200)); apply in_or_app; now right).
  apply repeat_spec in Hall. subst line. vm_compute. reflexivity.
Defined.

(** X14: lines added to a file after its line 604 are copied and change
    nothing of the output before them. *)
Theorem X14_lines_after_the_window_are_appended lines more :
  604 <= length lines ->
  transform (lines ++ more) = transform lines ++ more.
Proof.
  intros Hlen. rewrite !transform_window.
  rewrite firstn_app, !skipn_app, firstn_app.
  rewrite length_skipn.
  replace (174 - length lines) with 0 by lia.
  replace (430 - (length lines - 174)) with 0 by lia.
  replace (604 - length lines) with 0 by lia.
  rewrite !firstn_O, !skipn_O, !app_nil_r.
  now rewrite <- !app_assoc.
Qed.

Lemma X14_example :
  transform (repeat ("  return val_int(42);" ++ nl)%string 604 ++
             ["  return val_int(43);" ++ nl]%string) =
  transform (repeat ("  return val_int(42);" ++ nl)%string 604) ++
  ["  return val_int(43);" ++ nl]%string.
Proof.
  apply (X14_lines_after_the_window_are_appended
           (repeat ("  return val_int(42);" ++ nl)%string 604)).
  rewrite repeat_length. lia.
Defined.

(** ** Labelled returns and the gate *)

(** C6, as the code has it: inside the window a labelled [return] whose line
    contains the text [return val_] (one blank between [return] and the
    call) gives three lines: the label at the original indentation, then the
    assignment and the goto four spaces deeper. *)
Theorem C6_gated_labelled_return_gives_three_lines
    indent label ws1 ws name args rest :
  blank indent = true -> some_of is_word label = true -> blank ws1 = true ->
  some_of is_space ws = true ->
  some_of is_word name = true -> some_of not_rparen args = true ->
  contains "return val_"
    (indent ++ "case " ++ label ++ ":" ++ ws1 ++
     "return" ++ ws ++ call_text name args ++ ";" ++ rest) = true ->
  process_line true
    (indent ++ "case " ++ label ++ ":" ++ ws1 ++
     "return" ++ ws ++ call_text name args ++ ";" ++ rest) =
  [ indent ++ "case " ++ label ++ ":" ++ nl;
    indent ++ "    " ++ "binary_result = " ++ call_text name args ++ ";" ++ nl;
    indent ++ "    " ++ "goto binary_cleanup;" ++ nl ]%string.
Proof.
  intros Hindent Hlabel Hws1 Hws Hname Hargs.
  replace (indent ++ "case " ++ label ++ ":" ++ ws1 ++
           "return" ++ ws ++ call_text name args ++ ";" ++ rest)%string
    with (case_return indent label ws1 ws name args rest)
    by (unfold case_return, label_text, ret_text; now rewrite !append_assoc).
  intros Hgate. now apply process_case.
Qed.

Lemma C6_example :
  process_line true ("    case OP_ADD: return val_add(a, b);" ++ nl) =
  [ "    case OP_ADD:" ++ nl;
    "        binary_result = val_add(a, b);" ++ nl;
    "        goto binary_cleanup;" ++ nl ]%string.
Proof.
  apply (C6_gated_labelled_return_gives_three_lines
           "    " "OP_ADD" " " " " "add" "a, b" nl); reflexivity.
Defined.

(** C6 as stated fails: with two blanks after [return] the line has the
    labelled shape and both patterns match it, yet the gate passes it
    through unchanged. *)
Lemma C6_two_blanks_passed_through :
  ("    case OP_ADD: return  val_add(a, b);" ++ nl)%string =
  case_return "    " "OP_ADD" " " "  " "add" "a, b" nl /\
  some_of is_space "  " = true /\
  re_match return_re ("    case OP_ADD: return  val_add(a, b);" ++ nl) <> None /\
  re_match case_re ("    case OP_ADD: return  val_add(a, b);" ++ nl) <> None /\
  process_line true ("    case OP_ADD: return  val_add(a, b);" ++ nl) =
  ["    case OP_ADD: return  val_add(a, b);" ++ nl]%string.
Proof.
  split; [reflexivity|]. split; [reflexivity|]. split; [|split].
  - change ("    case OP_ADD: return  val_add(a, b);" ++ nl)%string
      with ("    " ++ label_text "OP_ADD" " " ++ ret_text "  " "add" "a, b"
            ++ ";" ++ nl)%string.
    rewrite match_return_case by reflexivity. discriminate.
  - change ("    case OP_ADD: return  val_add(a, b);" ++ nl)%string
      with ("    " ++ label_text "OP_ADD" " " ++ "return"
            ++ "  val_add(a, b);" ++ nl)%string.
    rewrite match_case_case by reflexivity. discriminate.
  - vm_compute. reflexivity.
Qed.

(** ** Line ends *)

Section LineEnds.

Lemma universal_no_cr_both s :
  no_cr (IO.universal_newlines s) = true /\
  forall c, no_cr (IO.universal_newlines (String c s)) = true.
Proof.
  unfold no_cr.
  induction s as [|x s [IH1 IH2]].
  - split; [reflexivity|]. intros c. cbn [IO.universal_newlines].
    destruct (Ascii.eqb c "013") eqn:Hc; cbn [all]; [reflexivity|].
    now rewrite Hc.
  - split; [apply IH2|]. intros c.
    change (IO.universal_newlines (String c (String x s)))
      with (if Ascii.eqb c "013"
            then String "010"
                   (if Ascii.eqb x "010" then IO.universal_newlines s
                    else IO.universal_newlines (String x s))
            else String c (IO.universal_newlines (String x s))).
    destruct (Ascii.eqb c "013") eqn:Hc; cbn [all].
    + destruct (Ascii.eqb x "010"); [exact IH1 | apply IH2].
    + now rewrite Hc, IH2.
Qed.

Lemma universal_no_cr s : no_cr (IO.universal_newlines s) = true.
Proof. apply universal_no_cr_both. Qed.

Lemma split_lines_all p t :
  all p t = true -> forallb (all p) (IO.split_lines t) = true.
Proof.
  induction t as [|c t IH]; [reflexivity|].
  cbn [all IO.split_lines]. rewrite andb_true_iff. intros [Hc Ht].
  specialize (IH Ht).
  destruct (Ascii.eqb c "010").
  - cbn [forallb all]. now rewrite Hc, IH.
  - destruct (IO.split_lines t) as [|l ls]; cbn [forallb all] in *;
      rewrite Hc; [reflexivity | exact IH].
Qed.

Lemma concat_all p ls :
  forallb (all p) ls = true -> all p (String.concat "" ls) = true.
Proof.
  induction ls as [|l ls IH]; [reflexivity|].
  cbn [forallb]. rewrite andb_true_iff. intros [Hl Hls].
  now rewrite concat_cons, all_append, Hl, IH.
Qed.

(** What is written with the separator of the platform is read back as it
    was before the separator was put in. *)
Lemma universal_to_linesep sep t :
  sep = nl \/ sep = crlf -> no_cr t = true ->
  IO.universal_newlines (IO.to_linesep sep t) = t.
Proof.
  intros Hsep. unfold no_cr.
  induction t as [|c t IH]; [reflexivity|].
  cbn [all IO.to_linesep]. rewrite andb_true_iff. intros [Hc Ht].
  apply negb_true_iff in Hc. specialize (IH Ht).
  destruct (Ascii.eqb c "010") eqn:Hl.
  - apply Ascii.eqb_eq in Hl. subst c.
    destruct Hsep as [-> | ->]; cbn [nl crlf append IO.universal_newlines Ascii.eqb Bool.eqb];
      now rewrite IH.
  - cbn [IO.universal_newlines]. now rewrite Hc, IH.
Qed.

(** The loop body makes no carriage return of its own. *)
Lemma process_no_cr b line :
  no_cr line = true -> forallb no_cr (process_line b line) = true.
Proof.
  intros Hline. unfold process_line.
  destruct (b && contains "return val_" line);
    [|cbn [forallb]; now rewrite Hline].
  destruct (replacement line) as [out|] eqn:H;
    [|cbn [forallb]; now rewrite Hline].
  unfold no_cr in *.
  apply replacement_inv in H
    as [(indent & ws & name & args & rest & -> & _ & _ & _ & _ & _ & ->)
       |(indent & label & ws1 & ws & name & args & rest & -> & _ & _ & _ & _
         & _ & _ & ->)].
  - unfold bare_return, ret_text in Hline. rewrite !all_append in Hline.
    apply andb_true_iff in Hline as [Hi Hr].
    apply andb_true_iff in Hr as [Hr _].
    apply andb_true_iff in Hr as [_ Hr]. apply andb_true_iff in Hr as [_ Hc].
    unfold bare_lines. cbn [forallb]. rewrite !all_append, Hi, Hc. reflexivity.
  - unfold case_return, ret_text, label_text in Hline.
    rewrite !all_append in Hline.
    apply andb_true_iff in Hline as [Hi Hr].
    apply andb_true_iff in Hr as [Hl Hr].
    apply andb_true_iff in Hl as [_ Hl]. apply andb_true_iff in Hl as [Hl _].
    apply andb_true_iff in Hr as [Hr _].
    apply andb_true_iff in Hr as [_ Hr]. apply andb_true_iff in Hr as [_ Hc].
    unfold case_lines. cbn [forallb]. rewrite !all_append, Hi, Hl, Hc.
    reflexivity.
Qed.

Lemma loop_no_cr lines : forall i flag,
  forallb no_cr lines = true -> forallb no_cr (loop i flag lines []) = true.
Proof.
  induction lines as [|l ls IH]; intros i flag H; [reflexivity|].
  cbn [forallb] in H. apply andb_true_iff in H as [Hl Hls].
  cbn [loop]. rewrite loop_acc. cbn [app].
  rewrite forallb_app, process_no_cr, IH by trivial. reflexivity.
Qed.



End LineEnds.




(** ** Reading, writing and running again *)

Section Runs.

Lemma main_run w f s :
  IO.find IO.path (IO.disk w) = Some f -> IO.can_read f = true ->
  IO.text f = Some s -> IO.can_write f = true ->
  IO.main w =
  IO.bind (IO.write_text IO.path f (new_text (IO.linesep w) s))
    (fun _ => IO.print done_message) w.
Proof.
  intros Hf Hr Ht Hw.
  unfold IO.main, IO.bind, IO.read_lines, IO.write_lines.
  rewrite Hf, Hr, Ht. cbv beta zeta. rewrite Hf, Hw. reflexivity.
Qed.

End Runs.

(** X9: the lines [readlines] returns are the text of the file with every
    carriage return and line feed, and every carriage return alone, turned
    into a line feed: written one after the other they give that text, each
    of them is a line of it, and none holds a carriage return. *)
Theorem X9_lines_read_from_a_text s :
  String.concat "" (IO.split_lines (IO.universal_newlines s)) =
    IO.universal_newlines s /\
  lines_ok (IO.split_lines (IO.universal_newlines s)) = true /\
  forallb no_cr (IO.split_lines (IO.universal_newlines s)) = true.
Proof.
  split; [|split].
  - generalize (IO.universal_newlines s) as t. intros t.
    induction t as [|c t IH]; [reflexivity|].
    cbn [IO.split_lines].
    destruct (Ascii.eqb c "010").
    + rewrite concat_cons, IH. reflexivity.
    + destruct (IO.split_lines t) as [|l ls].
      * cbn [String.concat] in *. now rewrite <- IH.
      * rewrite concat_cons in *. cbn [append]. now rewrite IH.
  - apply split_lines_ok.
  - apply split_lines_all, universal_no_cr.
Qed.


Section SecondRunOfTheScript.

Lemma transform_ok lines :
  lines_ok lines = true -> lines_ok (transform lines) = true.
Proof. apply loop_ok. Qed.

Lemma transform_no_cr lines :
  forallb no_cr lines = true -> forallb no_cr (transform lines) = true.
Proof. apply loop_no_cr. Qed.

Lemma reads_back sep lines :
  sep = nl \/ sep = crlf ->
  lines_ok lines = true -> forallb no_cr lines = true ->
  IO.split_lines
    (IO.universal_newlines (IO.to_linesep sep (String.concat "" lines))) = lines.
Proof.
  intros Hsep Hok Hcr.
  rewrite universal_to_linesep by (trivial; now apply concat_all).
  now apply split_concat.
Qed.

(** The text a run writes is the text a run on it would write. *)
Lemma new_text_fixed sep s :
  sep = nl \/ sep = crlf -> new_text sep (new_text sep s) = new_text sep s.
Proof.
  intros Hsep. unfold new_text at 1 3.
  unfold new_text. rewrite reads_back; trivial.
  - now rewrite transform_twice.
  - apply transform_ok, split_lines_ok.
  - apply transform_no_cr, split_lines_all, universal_no_cr.
Qed.

Lemma main_success_inv w u w1 :
  IO.main w = (inr u, w1) ->
  exists f s,
    IO.find IO.path (IO.disk w) = Some f /\ IO.text f = Some s /\
    match IO.capacity w with
    | Some n => String.length (new_text (IO.linesep w) s) <= n
    | None => True
    end /\
    w1 = IO.mkWorld
           (IO.store IO.path
              (IO.mkFile true true (Some (new_text (IO.linesep w) s)))
              (IO.disk w))
           (IO.console w ++ [done_message]) (IO.linesep w) (IO.capacity w).
Proof.
  destruct (IO.find IO.path (IO.disk w)) as [f|] eqn:Hf.
  2: { unfold IO.main, IO.bind, IO.read_lines. now rewrite Hf. }
  destruct (IO.can_read f) eqn:Hr.
  2: { unfold IO.main, IO.bind, IO.read_lines. now rewrite Hf, Hr. }
  destruct (IO.text f) as [s|] eqn:Ht.
  2: { unfold IO.main, IO.bind, IO.read_lines. now rewrite Hf, Hr, Ht. }
  destruct (IO.can_write f) eqn:Hw.
  2: { unfold IO.main, IO.bind, IO.read_lines, IO.write_lines.
       rewrite Hf, Hr, Ht. cbv beta iota zeta. now rewrite Hf, Hw. }
  rewrite (main_run w f s) by trivial.
  unfold IO.bind, IO.write_text, IO.print. rewrite Hr.
  cbn [IO.can_read].
  destruct (IO.capacity w) as [n|].
  - destruct (Nat.leb_spec (String.length (new_text (IO.linesep w) s)) n);
      [|discriminate].
    cbn [IO.disk IO.console IO.linesep IO.capacity]. intros [= _ <-].
    exists f, s. repeat split; trivial.
  - cbn [IO.disk IO.console IO.linesep IO.capacity]. intros [= _ <-].
    exists f, s. repeat split; trivial.
Qed.

End SecondRunOfTheScript.

(** X11: the line structure survives the rewrite.  When the input is the
    lines of a text without carriage returns (what [readlines] returns), so
    is the output; and what is written, with the line feed or with carriage
    return and line feed as separator, is read back as the very lines that
    were written. *)
Theorem X11_output_reads_back lines sep :
  lines_ok lines = true -> forallb no_cr lines = true ->
  sep = nl \/ sep = crlf ->
  lines_ok (transform lines) = true /\
  forallb no_cr (transform lines) = true /\
  IO.split_lines
    (IO.universal_newlines
       (IO.to_linesep sep (String.concat "" (transform lines)))) =
  transform lines.
Proof.
  intros Hok Hcr Hsep.
  assert (Hok' := transform_ok lines Hok).
  assert (Hcr' := transform_no_cr lines Hcr).
  repeat split; trivial. now apply reads_back.
Qed.

Lemma X11_example :
  lines_ok (transform ["int f(void)" ++ nl; "  return val_int(42);"]%string) = true /\
  forallb no_cr
    (transform ["int f(void)" ++ nl; "  return val_int(42);"]%string) = true /\
  IO.split_lines
    (IO.universal_newlines
       (IO.to_linesep crlf
          (String.concat ""
             (transform ["int f(void)" ++ nl; "  return val_int(42);"]%string)))) =
  transform ["int f(void)" ++ nl; "  return val_int(42);"]%string.
Proof.
  apply (X11_output_reads_back
           ["int f(void)" ++ nl; "  return val_int(42);"]%string crlf);
    [reflexivity | reflexivity | now right].
Defined.

(** X12: after a run that ended normally, on a platform whose line
    separator is the line feed or carriage return and line feed, a second
    run ends normally too and leaves every file as the first run left it. *)
Theorem X12_second_run_leaves_the_file w u w1 :
  IO.main w = (inr u, w1) ->
  IO.linesep w = nl \/ IO.linesep w = crlf ->
  exists w2, IO.main w1 = (inr tt, w2) /\ IO.disk w2 = IO.disk w1.
Proof.
  intros H Hsep.
  apply main_success_inv in H as (f & s & Hf & Ht & Hfit & ->).
  rewrite (main_run _ (IO.mkFile true true (Some (new_text (IO.linesep w) s)))
             (new_text (IO.linesep w) s));
    cbn [IO.disk IO.linesep IO.can_read IO.can_write IO.text];
    trivial using find_store.
  rewrite new_text_fixed by trivial.
  unfold IO.bind, IO.write_text in *.
  cbn [IO.disk IO.console IO.linesep IO.capacity IO.can_read] in *.
  destruct (IO.capacity w) as [n|].
  - apply Nat.leb_le in Hfit. rewrite Hfit.
    eexists; split; [reflexivity|]. cbn [IO.disk]. apply store_store.
  - eexists; split; [reflexivity|]. cbn [IO.disk]. apply store_store.
Qed.

Lemma X12_example :
  exists w2,
    IO.main
      (IO.mkWorld
         [(IO.path,
           IO.mkFile true true
             (Some ("  binary_result = val_int(42);" ++ crlf)%string))]
         [done_message] crlf (Some 100)) = (inr tt, w2) /\
    IO.disk w2 =
    IO.disk
      (IO.mkWorld
         [(IO.path,
           IO.mkFile true true
             (Some ("  binary_result = val_int(42);" ++ crlf)%string))]
         [done_message] crlf (Some 100)).
Proof.
  apply (X12_second_run_leaves_the_file
           (IO.mkWorld
              [(IO.path,
                IO.mkFile true true
                  (Some ("  binary_result = val_int(42);" ++ nl)%string))]
              [] crlf (Some 100)) tt).
  - vm_compute. reflexivity.
  - now right.
Defined.
